(** * A shallow embedding of [pipeline.py]

    The Seesaw pipeline of the example Wpull project: the [CheckIP]
    reachability guard, the [PrepareDirectories] stager, the [MoveFiles]
    finalizer, [stats_id_function] and the [WgetArgs] argument builder,
    over a model of the Python runtime pieces they call (strings,
    dictionaries, exceptions, the POSIX file system).

    What the tasks take from their environment is a parameter of their
    model: the resolver behind [socket.gethostbyname], the local clock
    behind [time.strftime], the working directory of the process, the
    file system, and the globals of the module. Tasks are functions from
    the store they mutate to the new store and either a value or the
    exception raised. *)

From Stdlib Require Import ZArith Lia ZifyNat Ascii String.
From stdpp Require Import gmap strings list fin_maps fin_sets.

(** ** Python exceptions and results *)

Inductive errno :=
  | ENOENT | EEXIST | ENOTDIR | EISDIR | EINVAL | ENOTEMPTY | EBUSY.

Inductive exn :=
  | Exception (msg : string)
  | KeyError (key : string)
  | ValueError (msg : string)
  | OSError (e : errno)
  | gaierror (host : string).

Inductive result (A : Type) :=
  | Ok (a : A)
  | Raise (e : exn).
Arguments Ok {A} a.
Arguments Raise {A} e.

Global Instance errno_eq_dec : EqDecision errno.
Proof. solve_decision. Defined.
Global Instance exn_eq_dec : EqDecision exn.
Proof. solve_decision. Defined.
Global Instance result_eq_dec `{EqDecision A} : EqDecision (result A).
Proof. solve_decision. Defined.

Definition rbind {A B} (r : result A) (k : A → result B) : result B :=
  match r with
  | Ok a => k a
  | Raise e => Raise e
  end.

(** Statements that run against a mutable store [S] and may raise: the
    store is returned in both cases, as whatever was written before the
    exception stays written. *)
Definition M (S A : Type) : Type := S → S * result A.

Definition ret {S A} (a : A) : M S A := λ s, (s, Ok a).
Definition raise {S A} (e : exn) : M S A := λ s, (s, Raise e).
Definition bind {S A B} (m : M S A) (k : A → M S B) : M S B :=
  λ s, match m s with
       | (s', Ok a) => k a s'
       | (s', Raise e) => (s', Raise e)
       end.
Definition lift {S A} (r : result A) : M S A := λ s, (s, r).
Definition get {S} : M S S := λ s, (s, Ok s).
Definition modify {S} (f : S → S) : M S unit := λ s, (f s, Ok tt).

Declare Scope py_scope.
Delimit Scope py_scope with py.
Notation "'let!' x ':=' m 'in' k" := (bind m (λ x, k))
  (at level 10, x name, m at level 100, k at level 200) : py_scope.
Notation "'do!' m 'in' k" := (bind m (λ _, k))
  (at level 10, m at level 100, k at level 200) : py_scope.

(** ** Python strings

    A [str] is a [string]; the characters the pipeline looks at (':', '/',
    '%', '(', ')', 's') are ASCII, so the same definitions read a Python 2
    byte string or the UTF-8 bytes of a Python 3 string. *)

Fixpoint startswith (p s : string) : bool :=
  match p, s with
  | EmptyString, _ => true
  | String a p', String b s' => if Ascii.eqb a b then startswith p' s' else false
  | String _ _, EmptyString => false
  end.

(** [s.replace(old, new)] for a non-empty [old]: occurrences are replaced
    left to right without overlap. [skip] counts the characters of an
    occurrence that are still to be dropped. *)
Fixpoint replace_go (old new : string) (skip : nat) (s : string) : string :=
  match s with
  | EmptyString => EmptyString
  | String c s' =>
      match skip with
      | S k => replace_go old new k s'
      | O =>
          if startswith old s
          then new +:+ replace_go old new (Nat.pred (String.length old)) s'
          else String c (replace_go old new 0 s')
      end
  end.

(** With an empty [old], Python puts [new] before every character and at
    the end. *)
Fixpoint replace_empty (new : string) (s : string) : string :=
  match s with
  | EmptyString => new
  | String c s' => new +:+ String c (replace_empty new s')
  end.

Definition replace (old new s : string) : string :=
  match old with
  | EmptyString => replace_empty new s
  | _ => replace_go old new 0 s
  end.

(** The characters of a string. *)
Definition chars (s : string) : list ascii := list_ascii_of_string s.

Fixpoint snoc (s : string) (c : ascii) : string :=
  match s with
  | EmptyString => String c ""
  | String a s' => String a (snoc s' c)
  end.

Definition subst_char (a b c : ascii) : ascii :=
  if Ascii.eqb c a then b else c.

(** [sep.join(parts)] *)
Fixpoint join (sep : string) (parts : list string) : string :=
  match parts with
  | [] => ""
  | [p] => p
  | p :: ps => p +:+ sep +:+ join sep ps
  end.

(** [s.split("/")] *)
Fixpoint split_slash (s : string) : list string :=
  match s with
  | EmptyString => [""]
  | String c s' =>
      if Ascii.eqb c "/"%char then "" :: split_slash s'
      else match split_slash s' with
           | [] => [String c ""]
           | h :: t => String c h :: t
           end
  end.

(** An item is a dictionary; the keys the pipeline reads and writes hold
    strings. *)
Abbreviation item := (gmap string string).

Definition getitem (d : item) (k : string) : result string :=
  match d !! k with
  | Some v => Ok v
  | None => Raise (KeyError k)
  end.

(** [fmt % d] for a dictionary [d]: the conversions [%(key)s] and [%%].
    The scanner is in one of four places: in literal text, after a '%',
    inside the parentheses of a key, or after the closing parenthesis. *)
Inductive pct_mode :=
  | PLit
  | PPct
  | PKey (acc : string)
  | PConv (key : string).

Fixpoint pct_go (d : item) (m : pct_mode) (fmt : string) : result string :=
  match fmt with
  | EmptyString =>
      match m with
      | PLit => Ok ""
      | _ => Raise (ValueError "incomplete format")
      end
  | String c rest =>
      match m with
      | PLit =>
          if Ascii.eqb c "%"%char then pct_go d PPct rest
          else rbind (pct_go d PLit rest) (λ r, Ok (String c r))
      | PPct =>
          if Ascii.eqb c "("%char then pct_go d (PKey "") rest
          else if Ascii.eqb c "%"%char
          then rbind (pct_go d PLit rest) (λ r, Ok (String "%" r))
          else Raise (ValueError "unsupported format character")
      | PKey acc =>
          if Ascii.eqb c ")"%char then pct_go d (PConv acc) rest
          else pct_go d (PKey (snoc acc c)) rest
      | PConv key =>
          if Ascii.eqb c "s"%char
          then rbind (getitem d key) (λ v,
               rbind (pct_go d PLit rest) (λ r, Ok (v +:+ r)))
          else Raise (ValueError "unsupported format character")
      end
  end.

Definition pct_format (fmt : string) (d : item) : result string :=
  pct_go d PLit fmt.


(** ** The file system

    A POSIX name space without symbolic links, seen by one process with
    enough permissions: a finite map from absolute paths (the components
    below the root, outermost first) to nodes. The root is the empty path. *)

Inductive node :=
  | Dir
  | File (content : string).

Global Instance node_eq_dec : EqDecision node.
Proof. solve_decision. Defined.

Abbreviation path := (list string).
Abbreviation fs := (gmap (list string) node).

Definition is_dot (c : string) : bool :=
  bool_decide (c = "") || bool_decide (c = ".").

(** The directory reached from [cur] through the component [c]. *)
Definition enter (cur : path) (c : string) : path :=
  if is_dot c then cur
  else if decide (c = "..") then removelast cur
  else cur ++ [c].

(** Path resolution: every component is looked up in a directory, so the
    path walked so far must be one; the last component itself need not
    exist. *)
Fixpoint walk (m : fs) (cur : path) (cs : list string) : result path :=
  match cs with
  | [] => Ok cur
  | c :: cs' =>
      match m !! cur with
      | Some Dir => walk m (enter cur c) cs'
      | Some (File _) => Raise (OSError ENOTDIR)
      | None => Raise (OSError ENOENT)
      end
  end.

Definition start (cwd : path) (s : string) : path :=
  if startswith "/" s then [] else cwd.

Definition resolve (m : fs) (cwd : path) (s : string) : result path :=
  match s with
  | EmptyString => Raise (OSError ENOENT)
  | _ => walk m (start cwd s) (split_slash s)
  end.

(** [os.path.exists] and [os.path.isdir] answer [False] on any error. *)
Definition os_path_exists (m : fs) (cwd : path) (s : string) : bool :=
  match resolve m cwd s with
  | Ok p => bool_decide (is_Some (m !! p))
  | Raise _ => false
  end.

Definition os_path_isdir (m : fs) (cwd : path) (s : string) : bool :=
  match resolve m cwd s with
  | Ok p => bool_decide (m !! p = Some Dir)
  | Raise _ => false
  end.

(** [os.makedirs(s)]: the path is walked and every missing directory on
    the way is created; the call fails with [EEXIST] unless the directory
    it ends in was created by this very call ([fresh]). Directories made
    before a failure stay. *)
Fixpoint makedirs_walk (m : fs) (cur : path) (fresh : bool)
    (cs : list string) : fs * result unit :=
  match cs with
  | [] => (m, if fresh then Ok tt else Raise (OSError EEXIST))
  | c :: cs' =>
      match m !! cur with
      | Some Dir =>
          if is_dot c then makedirs_walk m cur fresh cs'
          else if decide (c = "..") then makedirs_walk m (removelast cur) false cs'
          else match m !! (cur ++ [c]) with
               | None => makedirs_walk (<[cur ++ [c] := Dir]> m) (cur ++ [c]) true cs'
               | Some _ => makedirs_walk m (cur ++ [c]) false cs'
               end
      | Some (File _) => (m, Raise (OSError ENOTDIR))
      | None => (m, Raise (OSError ENOENT))
      end
  end.

Definition os_makedirs (cwd : path) (s : string) : M fs unit :=
  λ m, match s with
       | EmptyString => (m, Raise (OSError ENOENT))
       | _ => makedirs_walk m (start cwd s) false (split_slash s)
       end.

(** The last component of a path string as [rmdir] and [rename] see it:
    trailing slashes do not count. *)
Definition last_component (s : string) : option string :=
  last (filter (λ c, c ≠ "") (split_slash s)).

Definition below (d p : path) : Prop := d `prefix_of` p ∧ p ≠ d.

Global Instance below_dec d p : Decision (below d p).
Proof. unfold below. apply _. Defined.

(** What [os.rmdir(s)] answers for a directory [d = resolve s] that has
    been emptied. *)
Definition rmdir_errno (s : string) (d : path) : option errno :=
  match last_component s with
  | None => Some EBUSY
  | Some c =>
      if decide (c = ".") then Some EINVAL
      else if decide (c = "..") then Some ENOTEMPTY
      else if decide (d = []) then Some EBUSY
      else None
  end.

(** [shutil.rmtree(s)]: everything below the directory goes, then the
    directory itself is removed with [os.rmdir(s)]. *)
Definition shutil_rmtree (cwd : path) (s : string) : M fs unit :=
  λ m, match resolve m cwd s with
       | Raise e => (m, Raise e)
       | Ok d =>
           match m !! d with
           | Some Dir =>
               let m' := filter (λ kv, ¬ below d kv.1) m in
               match rmdir_errno s d with
               | Some e => (m', Raise (OSError e))
               | None => (delete d m', Ok tt)
               end
           | Some (File _) => (m, Raise (OSError ENOTDIR))
           | None => (m, Raise (OSError ENOENT))
           end
       end.

(** [open(s, "w").close()]: the file is created empty, or truncated. *)
Definition open_w_close (cwd : path) (s : string) : M fs unit :=
  λ m, match resolve m cwd s with
       | Raise e => (m, Raise e)
       | Ok p =>
           match m !! p with
           | Some Dir => (m, Raise (OSError EISDIR))
           | _ => (<[p := File ""]> m, Ok tt)
           end
       end.

(** Moving the subtree at [ps] to [pd]. *)
Definition rekey (ps pd : path) (k : path) : path :=
  if decide (ps `prefix_of` k) then pd ++ drop (length ps) k else k.

Definition move_tree (ps pd : path) (m : fs) : fs :=
  list_to_map (prod_map (rekey ps pd) id <$> map_to_list (delete pd m)).

(** [os.rename(src, dst)]. A file replaces an existing file; a directory
    replaces an empty directory only. *)
Definition os_rename (cwd : path) (src dst : string) : M fs unit :=
  λ m, match resolve m cwd src with
       | Raise e => (m, Raise e)
       | Ok ps =>
       match resolve m cwd dst with
       | Raise e => (m, Raise e)
       | Ok pd =>
           match m !! ps with
           | None => (m, Raise (OSError ENOENT))
           | Some (File c) =>
               match m !! pd with
               | Some Dir => (m, Raise (OSError EISDIR))
               | _ => (<[pd := File c]> (delete ps m), Ok tt)
               end
           | Some Dir =>
               if decide (ps = pd) then (m, Ok tt)
               else if decide (ps `prefix_of` pd) then (m, Raise (OSError EINVAL))
               else match rmdir_errno src ps, m !! pd with
                    | Some e, _ => (m, Raise (OSError EBUSY))
                    | None, Some (File _) => (m, Raise (OSError ENOTDIR))
                    | None, Some Dir =>
                        if bool_decide (filter (λ kv, below pd kv.1) m = ∅)
                        then (move_tree ps pd m, Ok tt)
                        else (m, Raise (OSError ENOTEMPTY))
                    | None, None => (move_tree ps pd m, Ok tt)
                    end
           end
       end
       end.

Definition child (d p : path) : Prop :=
  d `prefix_of` p ∧ length p = S (length d).

Global Instance child_dec d p : Decision (child d p).
Proof. unfold child. apply _. Defined.

(** What a directory holds: its entries, and everything below it. *)
Definition entries (m : fs) (d : path) : fs :=
  filter (λ kv, child d kv.1) m.

Definition subtree (m : fs) (d : path) : fs :=
  filter (λ kv, below d kv.1) m.

(** Every node sits in a directory, up to the root (which is its own
    parent). *)
Definition fs_wf (m : fs) : Prop :=
  m !! [] = Some Dir ∧ map_Forall (λ p _, m !! removelast p = Some Dir) m.

Global Instance fs_wf_dec m : Decision (fs_wf m).
Proof. unfold fs_wf. apply _. Defined.

(** A component that names an entry: not empty, not [.] or [..], and
    without a slash. *)
Definition normal (c : string) : Prop :=
  ("/"%char ∉ chars c) ∧ c ≠ "" ∧ c ≠ "." ∧ c ≠ "..".

Global Instance normal_dec c : Decision (normal c).
Proof. unfold normal. apply _. Defined.

(** A path string without [.] and [..] components. *)
Definition plain (s : string) : Prop :=
  Forall (λ c, c ≠ "." ∧ c ≠ "..") (split_slash s).

Global Instance plain_dec s : Decision (plain s).
Proof. unfold plain. apply _. Defined.

(** The limits of the system on a path string, in bytes ([NAME_MAX] on a
    component, [PATH_MAX] on the whole string, as on Linux), and the NUL
    byte that no path may hold. The operations above know none of them:
    they are faithful on the path strings that are [representable], and
    where one is not, the system call fails ([ENAMETOOLONG], or
    [ValueError] from Python) whatever the model answers. *)
Definition NAME_MAX : nat := 255.
Definition PATH_MAX : nat := 4096.

Definition representable (s : string) : Prop :=
  (Ascii.zero ∉ chars s) ∧ String.length s < PATH_MAX ∧
  Forall (λ c, String.length c ≤ NAME_MAX) (split_slash s).

Global Instance representable_dec s : Decision (representable s).
Proof. unfold representable. apply _. Defined.


(** ** The clock

    [time.strftime(fmt)] formats the current local time, read to the
    second. Years are taken within 0..9999 and rendered with four digits. *)

Record struct_time := {
  tm_year : nat; tm_mon : nat; tm_mday : nat;
  tm_hour : nat; tm_min : nat; tm_sec : nat
}.

Definition valid_time (t : struct_time) : Prop :=
  tm_year t < 100 * 100 ∧ (1 ≤ tm_mon t ≤ 12) ∧ (1 ≤ tm_mday t ≤ 31) ∧
  tm_hour t < 24 ∧ tm_min t < 60 ∧ tm_sec t ≤ 61.

Global Instance valid_time_dec t : Decision (valid_time t).
Proof. unfold valid_time. apply _. Defined.

Definition digit (n : nat) : ascii := ascii_of_nat (48 + n mod 10).

Definition dec2 (n : nat) : string :=
  String (digit (n / 10)) (String (digit n) "").

Definition dec4 (n : nat) : string :=
  String (digit (n / 1000)) (String (digit (n / 100)) (dec2 n)).

Definition directive (t : struct_time) (c : ascii) : string :=
  if Ascii.eqb c "Y"%char then dec4 (tm_year t)
  else if Ascii.eqb c "m"%char then dec2 (tm_mon t)
  else if Ascii.eqb c "d"%char then dec2 (tm_mday t)
  else if Ascii.eqb c "H"%char then dec2 (tm_hour t)
  else if Ascii.eqb c "M"%char then dec2 (tm_min t)
  else if Ascii.eqb c "S"%char then dec2 (tm_sec t)
  else if Ascii.eqb c "%"%char then "%"
  else "".

Fixpoint strftime_go (t : struct_time) (pct : bool) (fmt : string) : string :=
  match fmt with
  | EmptyString => ""
  | String c rest =>
      if pct then directive t c +:+ strftime_go t false rest
      else if Ascii.eqb c "%"%char then strftime_go t true rest
      else String c (strftime_go t false rest)
  end.

Definition strftime (fmt : string) (now : struct_time) : string :=
  strftime_go now false fmt.

(** [fmt % (a, b, ...)] with [%s] conversions only. *)
Fixpoint pct_tuple_go (pct : bool) (fmt : string) (args : list string)
    : result string :=
  match fmt with
  | EmptyString =>
      if pct then Raise (ValueError "incomplete format")
      else match args with
           | [] => Ok ""
           | _ => Raise (ValueError "not all arguments converted")
           end
  | String c rest =>
      if pct then
        if Ascii.eqb c "s"%char then
          match args with
          | a :: args' =>
              rbind (pct_tuple_go false rest args') (λ r, Ok (a +:+ r))
          | [] => Raise (ValueError "not enough arguments for format string")
          end
        else Raise (ValueError "unsupported format character")
      else if Ascii.eqb c "%"%char then pct_tuple_go true rest args
      else rbind (pct_tuple_go false rest args) (λ r, Ok (String c r))
  end.

Definition pct_tuple (fmt : string) (args : list string) : result string :=
  pct_tuple_go false fmt args.

(** * The pipeline *)

Definition VERSION : string := "20150321.01".
Definition USER_AGENT : string := "ArchiveTeam".
Definition TRACKER_ID : string := "examplecity".
Definition TRACKER_HOST : string := "example.com.invalid".

(** ** CheckIP *)

(** What one invocation lets the outside see: lines on the item's log,
    and name resolutions. *)
Inductive event :=
  | log_output (msg : string)
  | log_ip_set (ip_set : gset string)
  | dns_query (host : string).

(** The task object: its [_counter], and next to it the events it has
    let out so far. *)
Record CheckIP := {
  _counter : Z;
  seen : list event
}.

Definition CheckIP_init : CheckIP := {| _counter := 0; seen := [] |}.

Definition emit (e : event) : M CheckIP unit :=
  modify (λ self, {| _counter := _counter self; seen := seen self ++ [e] |}).

Definition set_counter (c : Z) : M CheckIP unit :=
  modify (λ self, {| _counter := c; seen := seen self |}).

(** [socket.gethostbyname(host)] against the resolver [dns] of the
    environment. *)
Definition gethostbyname (dns : string → result string) (host : string)
    : M CheckIP string :=
  (do! emit (dns_query host) in lift (dns host))%py.

Definition firewall_msg : string :=
  "You are behind a firewall or proxy. That is a big no-no!".

Definition CheckIP_process (dns : string → result string) : M CheckIP unit :=
  (let! self := get in
   do! (if decide (_counter self ≤ 0)%Z then
          do! emit (log_output "Checking IP address.") in
          let ip_set : gset string := ∅ in
          let! a := gethostbyname dns "twitter.com" in
          let ip_set := ip_set ∪ {[a]} in
          let! a := gethostbyname dns "facebook.com" in
          let ip_set := ip_set ∪ {[a]} in
          let! a := gethostbyname dns "youtube.com" in
          let ip_set := ip_set ∪ {[a]} in
          let! a := gethostbyname dns "microsoft.com" in
          let ip_set := ip_set ∪ {[a]} in
          let! a := gethostbyname dns "icanhas.cheezburger.com" in
          let ip_set := ip_set ∪ {[a]} in
          let! a := gethostbyname dns "archiveteam.org" in
          let ip_set := ip_set ∪ {[a]} in
          if decide (size ip_set ≠ 6) then
            do! emit (log_ip_set ip_set) in
            do! emit (log_output firewall_msg) in
            raise (Exception firewall_msg)
          else ret tt
        else ret tt) in
   (* Check only occasionally *)
   let! self := get in
   if decide (_counter self ≤ 0)%Z then set_counter 10
   else set_counter (_counter self - 1))%py.

(** The set [ip_set] once the six answers are in. *)
Definition six (a1 a2 a3 a4 a5 a6 : string) : gset string :=
  ∅ ∪ {[a1]} ∪ {[a2]} ∪ {[a3]} ∪ {[a4]} ∪ {[a5]} ∪ {[a6]}.

(** The six hostnames, in the order they are queried. *)
Definition hostnames : list string :=
  ["twitter.com"; "facebook.com"; "youtube.com"; "microsoft.com";
   "icanhas.cheezburger.com"; "archiveteam.org"].

Definition queries (es : list event) : list string :=
  omap (λ e, match e with dns_query h => Some h | _ => None end) es.

(** A run of invocations on one [CheckIP] object, each with the resolver
    of its moment; the events and the outcome of each invocation are
    recorded apart, the counter is carried from one to the next (an
    exception leaves it as it was). *)
Fixpoint CheckIP_run (dnss : list (string → result string)) (self : CheckIP)
    : list (list event * result unit) :=
  match dnss with
  | [] => []
  | dns :: rest =>
      let '(self', r) :=
        CheckIP_process dns {| _counter := _counter self; seen := [] |} in
      (seen self', r) :: CheckIP_run rest self'
  end.

Definition checked (inv : list event * result unit) : bool :=
  bool_decide (queries inv.1 ≠ []).

(** ** PrepareDirectories and MoveFiles *)

Record world := {
  w_fs : fs;
  w_item : item
}.

Definition item_get (k : string) : M world string :=
  λ w, (w, getitem (w_item w) k).

Definition item_set (k v : string) : M world unit :=
  modify (λ w, {| w_fs := w_fs w; w_item := <[k := v]> (w_item w) |}).

Definition item_format (fmt : string) : M world string :=
  λ w, (w, pct_format fmt (w_item w)).

Definition on_fs {A} (op : M fs A) : M world A :=
  λ w, let '(m, r) := op (w_fs w) in
       ({| w_fs := m; w_item := w_item w |}, r).

Definition isdir (cwd : path) (s : string) : M world bool :=
  λ w, (w, Ok (os_path_isdir (w_fs w) cwd s)).

Definition exists_ (cwd : path) (s : string) : M world bool :=
  λ w, (w, Ok (os_path_exists (w_fs w) cwd s)).

(** The sanitized item name, [item_name.replace(':', '_').replace('/', '_')]. *)
Definition escape (item_name : string) : string :=
  replace "/" "_" (replace ":" "_" item_name).

(** The sanitized form of one character. *)
Definition canon (c : ascii) : ascii :=
  subst_char "/" "_" (subst_char ":" "_" c).

Definition PrepareDirectories_process (warc_prefix : string)
    (cwd : path) (now : struct_time) : M world unit :=
  (let! item_name := item_get "item_name" in
   let escaped_item_name := escape item_name in
   do! item_set "escaped_item_name" escaped_item_name in
   let! data_dir := item_get "data_dir" in
   let dirname := join "/" [data_dir; escaped_item_name] in
   let! b := isdir cwd dirname in
   do! (if b : bool then on_fs (shutil_rmtree cwd dirname) else ret tt) in
   do! on_fs (os_makedirs cwd dirname) in
   do! item_set "item_dir" dirname in
   let! base := lift (pct_tuple "%s-%s-%s"
       [warc_prefix; escaped_item_name; strftime "%Y%m%d-%H%M%S" now]) in
   do! item_set "warc_file_base" base in
   let! f := item_format "%(item_dir)s/%(warc_file_base)s.warc.gz" in
   on_fs (open_w_close cwd f))%py.

Definition MoveFiles_process (cwd : path) : M world unit :=
  (let! f := item_format "%(item_dir)s/%(warc_file_base)s.warc" in
   let! b := exists_ cwd f in
   (* Check if wget was compiled with zlib support *)
   do! (if b : bool
        then raise (Exception "Please compile wget with zlib support!")
        else ret tt) in
   let! src := item_format "%(item_dir)s/%(warc_file_base)s.warc.gz" in
   let! dst := item_format "%(data_dir)s/%(warc_file_base)s.warc.gz" in
   do! on_fs (os_rename cwd src dst) in
   let! d := item_format "%(item_dir)s" in
   on_fs (shutil_rmtree cwd d))%py.

(** ** Provenance and stats *)

(** [os.path.join(a, b)] *)
Definition os_path_join (a b : string) : string :=
  if startswith "/" b then b
  else match a with
       | EmptyString => b
       | _ => if decide (last (list_ascii_of_string a) = Some "/"%char)
              then a +:+ b else a +:+ "/" +:+ b
       end.

(** [os.getcwd()] *)
Definition os_getcwd (cwd : path) : string :=
  match cwd with
  | [] => "/"
  | _ => "/" +:+ join "/" cwd
  end.

(** [open(filename, 'rb').read()] *)
Definition read_file (m : fs) (cwd : path) (filename : string)
    : result string :=
  rbind (resolve m cwd filename) (λ p,
    match m !! p with
    | Some (File c) => Ok c
    | Some Dir => Raise (OSError EISDIR)
    | None => Raise (OSError ENOENT)
    end).

(** The module's globals that the tasks read. [WPULL_EXE], [bind_address]
    (set by the runner or absent), [downloader] and [sys.version] come
    from the environment; the two digests are computed when the module is
    loaded. *)
Record globals := {
  WPULL_EXE : string;
  PIPELINE_SHA1 : string;
  SCRIPT_SHA1 : string;
  sys_version : string;
  bind_address : option string;
  downloader : string
}.

Section Provenance.
(** [hashlib.sha1(data).hexdigest()] *)
Variable sha1_hexdigest : string → string.

Definition get_hash (m : fs) (cwd : path) (filename : string)
    : result string :=
  rbind (read_file m cwd filename) (λ data, Ok (sha1_hexdigest data)).

(** The two digests of the module-level assignments [CWD],
    [PIPELINE_SHA1] and [SCRIPT_SHA1], [pipeline.py] first. *)
Definition source_digests (m : fs) (cwd : path) : result (string * string) :=
  let CWD := os_getcwd cwd in
  rbind (get_hash m cwd (os_path_join CWD "pipeline.py")) (λ h1,
  rbind (get_hash m cwd (os_path_join CWD "examplecity.py")) (λ h2,
  Ok (h1, h2))).

(** The module-level assignments [CWD], [PIPELINE_SHA1], [SCRIPT_SHA1],
    run once when the pipeline is loaded against the file system [m],
    and the globals they leave. This is these three assignments alone:
    the version check and the search for the executable, which come
    before them in the module and can stop it, are not part of it, and
    [wpull] is what the search has found. *)
Definition load (m : fs) (cwd : path) (wpull version : string)
    (bind : option string) (dl : string) : result globals :=
  let CWD := os_getcwd cwd in
  rbind (get_hash m cwd (os_path_join CWD "pipeline.py")) (λ h1,
  rbind (get_hash m cwd (os_path_join CWD "examplecity.py")) (λ h2,
  Ok {| WPULL_EXE := wpull; PIPELINE_SHA1 := h1; SCRIPT_SHA1 := h2;
        sys_version := version; bind_address := bind;
        downloader := dl |})).
End Provenance.

(** For accountability and stats. *)
Definition stats_id_function (g : globals) (it : item) : gmap string string :=
  <["python_version" := sys_version g]>
    (<["script_hash" := SCRIPT_SHA1 g]>
      (<["pipeline_hash" := PIPELINE_SHA1 g]> ∅)).

(** ** WgetArgs *)

(** Modelled from the spec: seesaw's [ItemInterpolation] and
    [seesaw.config.realize] are not part of this repository; an argument
    is a plain string or a template whose item fields are substituted
    when the list is realized (late-bound, not cached). *)
Inductive arg :=
  | Str (s : string)
  | ItemInterpolation (fmt : string).

Definition realize_arg (it : item) (a : arg) : result string :=
  match a with
  | Str s => Ok s
  | ItemInterpolation fmt => pct_format fmt it
  end.

Fixpoint realize (args : list arg) (it : item) : result (list string) :=
  match args with
  | [] => Ok []
  | a :: rest =>
      rbind (realize_arg it a) (λ s,
      rbind (realize rest it) (λ ss, Ok (s :: ss)))
  end.

(** ["...{0}...".format(a)] for a template whose only braces are [{0}]. *)
Definition format0 (fmt a : string) : string := replace "{0}" a fmt.

Definition print (line : string) : M (list string) unit :=
  modify (λ out, out ++ [line]).

(** The store of [WgetArgs_realize] is standard output. *)
Definition WgetArgs_realize (g : globals) (it : item)
    : M (list string) (list string) :=
  (let wget_args := [
     Str (WPULL_EXE g);
     Str "-nv";
     Str "--python-script"; Str "examplecity.py";
     Str "-o"; ItemInterpolation "%(item_dir)s/wpull.log";
     Str "--no-check-certificate";
     Str "--database"; ItemInterpolation "%(item_dir)s/wpull.db";
     Str "--delete-after";
     Str "--no-robots";
     Str "--no-cookies";
     Str "--rotate-dns";
     Str "--recursive"; Str "--level=2";
     Str "--no-parent";
     Str "--page-requisites";
     Str "--span-hosts-allow"; Str "page-requisites,linked-pages";
     Str "--timeout"; Str "30";
     Str "--tries"; Str "2";
     Str "--wait"; Str "0.5";
     Str "--random-wait";
     Str "--waitretry"; Str "5";
     Str "--warc-file"; ItemInterpolation "%(item_dir)s/%(warc_file_base)s";
     Str "--warc-header"; Str "operator: Archive Team";
     Str "--warc-header"; Str ("examplecity-dld-script-version: " +:+ VERSION);
     Str "--warc-header"; ItemInterpolation "examplecity-user: %(item_name)s"
   ] in
   let! domain := lift (getitem it "item_name") in
   let wget_args := wget_args ++ [Str (format0 "http://{0}" domain)] in
   let! wget_args :=
     match bind_address g with
     | Some addr =>
         do! print "" in
         do! print (format0 "*** Wget will bind address at {0} ***" addr) in
         do! print "" in
         ret (wget_args ++ [Str "--bind-address"; Str addr])
     | None => ret wget_args
     end in
   lift (realize wget_args it))%py.

(** The value that follows each occurrence of the option [opt]. *)
Fixpoint values_of (opt : string) (args : list string) : list string :=
  match args with
  | o :: rest =>
      match rest with
      | v :: _ => if decide (o = opt) then v :: values_of opt rest
                  else values_of opt rest
      | [] => []
      end
  | [] => []
  end.

(** [opt] is an argument and [v] the argument right after it. *)
Definition follows (opt v : string) (args : list string) : Prop :=
  ∃ l1 l2, args = l1 ++ opt :: v :: l2.

(** [p in s] for strings. *)
Fixpoint infix (p s : string) : bool :=
  startswith p s ||
  match s with
  | EmptyString => false
  | String _ s' => infix p s'
  end.

(** The command line for an item whose [item_dir], [warc_file_base] and
    [item_name] are [idir], [base] and [name], before the optional bind
    address. *)
Definition realized_args (g : globals) (idir base name : string)
    : list string :=
  [ WPULL_EXE g; "-nv"; "--python-script"; "examplecity.py";
    "-o"; idir +:+ "/wpull.log"; "--no-check-certificate";
    "--database"; idir +:+ "/wpull.db"; "--delete-after"; "--no-robots";
    "--no-cookies"; "--rotate-dns"; "--recursive"; "--level=2";
    "--no-parent"; "--page-requisites";
    "--span-hosts-allow"; "page-requisites,linked-pages";
    "--timeout"; "30"; "--tries"; "2"; "--wait"; "0.5"; "--random-wait";
    "--waitretry"; "5";
    "--warc-file"; idir +:+ "/" +:+ base;
    "--warc-header"; "operator: Archive Team";
    "--warc-header"; "examplecity-dld-script-version: " +:+ VERSION;
    "--warc-header"; "examplecity-user: " +:+ name;
    "http://" +:+ name ].

(** ** The capture stage *)

(** Modelled from the spec: the Process Runner (seesaw's [WgetDownload] and
    [ExternalProcess], not part of this repository). Each attempt rebuilds
    the arguments and invokes the executable; an accepted exit code ends
    the stage with success, any other code uses up one try, and the stage
    fails the item when no try is left. The executable is given by the
    exit code of each of its invocations, and the argument builder by
    what it returns at each attempt, both counted from 0. *)
Inductive outcome :=
  | Success
  | ItemFatal.

Record ExternalProcess := {
  max_tries : nat;
  accept_on_exit_code : list Z
}.

Fixpoint ExternalProcess_go (accept : list Z)
    (build : nat → result (list string))
    (exe : nat → Z) (tries : nat) (invoked : list (list string))
    : list (list string) * outcome :=
  match tries with
  | O => (invoked, ItemFatal)
  | S tries' =>
      match build (length invoked) with
      | Raise _ => (invoked, ItemFatal)
      | Ok args =>
          let code := exe (length invoked) in
          if bool_decide (code ∈ accept) then (invoked ++ [args], Success)
          else ExternalProcess_go accept build exe tries' (invoked ++ [args])
      end
  end.

Definition ExternalProcess_process (p : ExternalProcess)
    (build : nat → result (list string)) (exe : nat → Z)
    : list (list string) * outcome :=
  ExternalProcess_go (accept_on_exit_code p) build exe (max_tries p) [].

(** The capture stage as the pipeline configures it. *)
Definition WgetDownload : ExternalProcess :=
  {| max_tries := 2; accept_on_exit_code := [0; 4; 7; 8]%Z |}.


(** ** A concrete run

    The item of the pipeline, [SetItemKey("item_name",
    "smaug.fart.website:8080")], with [data_dir = /tmp/out]. *)

Definition example_fs : fs :=
  <[["tmp"; "out"] := Dir]> (<[["tmp"] := Dir]> (<[[] := Dir]> ∅)).

Definition example_item : item :=
  <["item_name" := "smaug.fart.website:8080"]> (<["data_dir" := "/tmp/out"]> ∅).

Definition example_world : world :=
  {| w_fs := example_fs; w_item := example_item |}.

Definition example_time : struct_time :=
  {| tm_year := 2015; tm_mon := 3; tm_mday := 21;
     tm_hour := 9; tm_min := 5; tm_sec := 59 |}.

Definition example_later : struct_time :=
  {| tm_year := 2015; tm_mon := 3; tm_mday := 21;
     tm_hour := 9; tm_min := 6; tm_sec := 0 |}.

(** The same after an aborted attempt: the working directory is still
    there, with a log and a partial archive. *)
Definition stale_fs : fs :=
  <[["tmp"; "out"; "smaug.fart.website_8080"; "wpull.log"] := File "log"]>
    (<[["tmp"; "out"; "smaug.fart.website_8080";
        "examplecity-smaug.fart.website_8080-20150321-090559.warc.gz"]
         := File "partial"]>
      (<[["tmp"; "out"; "smaug.fart.website_8080"] := Dir]> example_fs)).

Definition stale_world : world :=
  {| w_fs := stale_fs; w_item := example_item |}.

(** The world when the capture is over: the stager has run and the
    capture has filled the compressed archive. *)
Definition captured_world : world :=
  let w := (PrepareDirectories_process "examplecity" [] example_time
              example_world).1 in
  {| w_fs := <[["tmp"; "out"; "smaug.fart.website_8080";
                "examplecity-smaug.fart.website_8080-20150321-090559.warc.gz"]
                 := File "WARC/1.0"]> (w_fs w);
     w_item := w_item w |}.

(** An item that has [item_dir] and [warc_file_base] and nothing else. *)
Definition bare_item : item :=
  <["item_dir" := "/tmp/out/example.org"]>
    (<["warc_file_base" := "examplecity-example.org-20150321-090559"]> ∅).

(** A resolver that gives every host an address of its own, and one that
    collapses all hosts to a single address. *)
Definition example_dns (host : string) : result string := Ok host.
Definition collapsing_dns (host : string) : result string := Ok "10.0.0.1".

Definition example_globals : globals :=
  {| WPULL_EXE := "./wpull"; PIPELINE_SHA1 := "p"; SCRIPT_SHA1 := "s";
     sys_version := "3.4.3"; bind_address := None; downloader := "me" |}.

(** The directory the pipeline is started from, with its two source
    files, and the globals of a module loaded there (with string reversal
    standing in for the digest). *)
Definition example_src_fs : fs :=
  <[["home"; "warrior"; "examplecity.py"] := File "wpull hooks"]>
    (<[["home"; "warrior"; "pipeline.py"] := File "pipeline source"]>
      (<[["home"; "warrior"] := Dir]> (<[["home"] := Dir]> (<[[] := Dir]> ∅)))).

Definition example_loaded : globals :=
  {| WPULL_EXE := "./wpull"; PIPELINE_SHA1 := String.rev "pipeline source";
     SCRIPT_SHA1 := String.rev "wpull hooks"; sys_version := "3.4.3";
     bind_address := None; downloader := "me" |}.

(** What [WgetArgs_realize] prints when a bind address is set. *)
Definition banner (g : globals) : list string :=
  match bind_address g with
  | Some addr => [""; "*** Wget will bind address at " +:+ addr +:+ " ***"; ""]
  | None => []
  end.

Definition is_ok {A} (r : result A) : bool :=
  match r with Ok _ => true | Raise _ => false end.

(** A resolver that fails on the third hostname. *)
Definition flaky_dns (host : string) : result string :=
  if decide (host = "youtube.com") then Raise (gaierror host) else Ok host.

(** A world with an empty item, and one where the path of the working
    directory is taken by a regular file. *)
Definition keyless_world : world := {| w_fs := example_fs; w_item := ∅ |}.

Definition blocked_world : world :=
  {| w_fs := <[["tmp"; "out"; "smaug.fart.website_8080"] := File "x"]> example_fs;
     w_item := example_item |}.

(** An item with an empty name, in a world where [data_dir] holds the
    archive of an earlier item. *)
Definition nameless_world : world :=
  {| w_fs := <[["tmp"; "out"; "examplecity-a-20150320-235959.warc.gz"]
                 := File "WARC/1.0"]> example_fs;
     w_item := <["item_name" := ""]> (<["data_dir" := "/tmp/out"]> ∅) |}.

(** * Properties *)

(** Reading a key of a dictionary after a series of assignments. *)
Ltac lookup_ins :=
  repeat first [ rewrite lookup_insert_eq
               | rewrite lookup_insert_ne by done ].

(** ** Strings *)

Lemma app_String (c : ascii) (s t : string) :
  String c s +:+ t = String c (s +:+ t).
Proof. reflexivity. Qed.

Lemma app_empty_l (s : string) : "" +:+ s = s.
Proof. reflexivity. Qed.

Lemma chars_app (s t : string) : chars (s +:+ t) = chars s ++ chars t.
Proof. induction s as [|c s IH]; [done|]. rewrite app_String. simpl. by rewrite IH. Qed.

Lemma chars_inj (s t : string) : chars s = chars t → s = t.
Proof.
  revert t. induction s as [|c s IH]; intros [|d t] H; simplify_eq/=; [done|].
  f_equal. by apply IH.
Qed.

(** Replacing one character by another maps over the characters. *)
Lemma replace_char (a b : ascii) (s : string) :
  chars (replace (String a "") (String b "") s) = subst_char a b <$> chars s.
Proof.
  unfold replace. induction s as [|c s IH]; [done|].
  simpl. unfold subst_char at 1. rewrite (Ascii.eqb_sym c a).
  destruct (Ascii.eqb a c).
  - rewrite app_String, app_empty_l. simpl. by rewrite IH.
  - simpl. by rewrite IH.
Qed.

Lemma chars_escape (name : string) : chars (escape name) = canon <$> chars name.
Proof.
  unfold escape. rewrite !replace_char. by rewrite <-list_fmap_compose.
Qed.

Lemma canon_clean (c : ascii) : canon c ≠ "/"%char ∧ canon c ≠ ":"%char.
Proof.
  unfold canon, subst_char.
  destruct (Ascii.eqb_spec c ":") as [->|]; [done|].
  destruct (Ascii.eqb_spec c "/") as [->|]; done.
Qed.

Lemma app_empty_r (s : string) : s +:+ "" = s.
Proof. induction s as [|c s IH]; [done|]. by rewrite app_String, IH. Qed.

Lemma app_assoc_s (s t u : string) : (s +:+ t) +:+ u = s +:+ t +:+ u.
Proof. induction s as [|c s IH]; [done|]. by rewrite !app_String, IH. Qed.

Lemma escape_clean (name : string) :
  "/"%char ∉ chars name → ":"%char ∉ chars name → escape name = name.
Proof.
  intros H1 H2. apply chars_inj. rewrite chars_escape.
  revert H1 H2. generalize (chars name). intros l.
  induction l as [|c l IH]; [done|]. intros H1 H2.
  apply not_elem_of_cons in H1 as [? ?]. apply not_elem_of_cons in H2 as [? ?].
  rewrite fmap_cons, IH by done. f_equal.
  unfold canon, subst_char.
  destruct (Ascii.eqb_spec c ":"); [congruence|].
  destruct (Ascii.eqb_spec c "/"); congruence.
Qed.

(** ** Formatting *)

Lemma pct_tuple_3 (a b c : string) :
  pct_tuple "%s-%s-%s" [a; b; c] = Ok (a +:+ "-" +:+ b +:+ "-" +:+ c).
Proof. cbn. by rewrite app_empty_r. Qed.

Lemma pct_format_2 (d : item) (a b : string) :
  d !! "item_dir" = Some a → d !! "warc_file_base" = Some b →
  pct_format "%(item_dir)s/%(warc_file_base)s.warc.gz" d =
    Ok (a +:+ "/" +:+ b +:+ ".warc.gz").
Proof.
  intros Ha Hb. unfold pct_format. cbn. unfold getitem.
  rewrite Ha. cbn. by rewrite Hb.
Qed.

Lemma strftime_stamp (now : struct_time) :
  strftime "%Y%m%d-%H%M%S" now =
  dec4 (tm_year now) +:+ dec2 (tm_mon now) +:+ dec2 (tm_mday now) +:+ "-" +:+
  dec2 (tm_hour now) +:+ dec2 (tm_min now) +:+ dec2 (tm_sec now).
Proof. reflexivity. Qed.

Lemma digit_inj (a b : nat) : digit a = digit b → a mod 10 = b mod 10.
Proof.
  unfold digit. intros H.
  apply (f_equal nat_of_ascii) in H.
  rewrite !nat_ascii_embedding in H by (pose proof (Nat.mod_upper_bound a 10);
    pose proof (Nat.mod_upper_bound b 10); lia).
  lia.
Qed.

Lemma two_digits (a b : nat) :
  a < 100 → b < 100 →
  (a / 10) mod 10 = (b / 10) mod 10 → a mod 10 = b mod 10 → a = b.
Proof. intros. zify. Z.to_euclidean_division_equations. lia. Qed.

Lemma four_digits (a b : nat) :
  a < 100 * 100 → b < 100 * 100 →
  (a / 1000) mod 10 = (b / 1000) mod 10 →
  (a / 100) mod 10 = (b / 100) mod 10 →
  (a / 10) mod 10 = (b / 10) mod 10 → a mod 10 = b mod 10 → a = b.
Proof. intros. zify. Z.to_euclidean_division_equations. lia. Qed.

Lemma strftime_inj (t1 t2 : struct_time) :
  valid_time t1 → valid_time t2 →
  strftime "%Y%m%d-%H%M%S" t1 = strftime "%Y%m%d-%H%M%S" t2 → t1 = t2.
Proof.
  rewrite !strftime_stamp.
  destruct t1 as [y1 m1 d1 H1 M1 S1], t2 as [y2 m2 d2 H2 M2 S2].
  unfold valid_time, dec4, dec2.
  cbn [tm_year tm_mon tm_mday tm_hour tm_min tm_sec].
  rewrite !app_String, !app_empty_l.
  intros (?&?&?&?&?&?) (?&?&?&?&?&?).
  assert (m1 < 100 ∧ d1 < 100 ∧ H1 < 100 ∧ M1 < 100 ∧ S1 < 100)
    as (?&?&?&?&?) by lia.
  assert (m2 < 100 ∧ d2 < 100 ∧ H2 < 100 ∧ M2 < 100 ∧ S2 < 100)
    as (?&?&?&?&?) by lia.
  intros E. injection E as E1 E2 E3 E4 E5 E6 E7 E8 E9 E10 E11 E12 E13 E14.
  repeat match goal with H : digit _ = digit _ |- _ => apply digit_inj in H end.
  f_equal; [apply four_digits|apply two_digits..]; assumption.
Qed.

(** ** PrepareDirectories, step by step *)

Section Stager.
Variables (warc_prefix : string) (cwd : path) (now : struct_time).
Variables (w : world) (name D : string).
Hypothesis Hname : w_item w !! "item_name" = Some name.

Let e := escape name.
Let dirname := D +:+ "/" +:+ e.
Let base :=
  warc_prefix +:+ "-" +:+ e +:+ "-" +:+ strftime "%Y%m%d-%H%M%S" now.
Let it1 : item := <["escaped_item_name" := e]> (w_item w).
Let it3 : item := <["warc_file_base" := base]> (<["item_dir" := dirname]> it1).

(** Without [data_dir] the stager stops at the lookup, the sanitized
    name already stored. *)
Lemma stager_no_data_dir :
  w_item w !! "data_dir" = None →
  PrepareDirectories_process warc_prefix cwd now w =
    ({| w_fs := w_fs w; w_item := it1 |}, Raise (KeyError "data_dir")).
Proof using Hname.
  intros Hd.
  unfold PrepareDirectories_process, bind, item_get, item_set, modify, getitem.
  rewrite Hname. cbn [w_item w_fs].
  rewrite lookup_insert_ne by done. by rewrite Hd.
Qed.

Hypothesis Hdata : w_item w !! "data_dir" = Some D.

Lemma stager_steps :
  PrepareDirectories_process warc_prefix cwd now w =
    let '(m1, r1) :=
      if os_path_isdir (w_fs w) cwd dirname
      then shutil_rmtree cwd dirname (w_fs w) else (w_fs w, Ok tt) in
    match r1 with
    | Raise x => ({| w_fs := m1; w_item := it1 |}, Raise x)
    | Ok _ =>
        let '(m2, r2) := os_makedirs cwd dirname m1 in
        match r2 with
        | Raise x => ({| w_fs := m2; w_item := it1 |}, Raise x)
        | Ok _ =>
            let '(m3, r3) :=
              open_w_close cwd (dirname +:+ "/" +:+ base +:+ ".warc.gz") m2 in
            ({| w_fs := m3; w_item := it3 |}, r3)
        end
    end.
Proof using Hname Hdata.
  assert (it3 !! "item_dir" = Some dirname) as Hi
    by (unfold it3; by rewrite lookup_insert_ne, lookup_insert_eq).
  assert (it3 !! "warc_file_base" = Some base) as Hb
    by (unfold it3; by rewrite lookup_insert_eq).
  unfold PrepareDirectories_process, bind, item_get, item_set, isdir, on_fs,
    lift, modify, ret, getitem, item_format.
  rewrite Hname. cbn [w_item w_fs].
  rewrite lookup_insert_ne by done. rewrite Hdata.
  fold e. cbn [join]. fold dirname. rewrite pct_tuple_3. fold base.
  destruct (os_path_isdir (w_fs w) cwd dirname); cbn [w_item w_fs].
  - destruct (shutil_rmtree cwd dirname (w_fs w)) as [m1 [[]|x]]; [|done].
    cbn [w_item w_fs].
    destruct (os_makedirs cwd dirname m1) as [m2 [[]|x]]; [|done].
    cbn [w_item w_fs]. fold it1. fold it3.
    rewrite (pct_format_2 it3 dirname base) by done.
    by destruct (open_w_close _ _ m2).
  - destruct (os_makedirs cwd dirname (w_fs w)) as [m2 [[]|x]]; [|done].
    cbn [w_item w_fs]. fold it1. fold it3.
    rewrite (pct_format_2 it3 dirname base) by done.
    by destruct (open_w_close _ _ m2).
Qed.

(** What a successful run leaves in the item. *)
Lemma stager_item :
  (PrepareDirectories_process warc_prefix cwd now w).2 = Ok tt →
  w_item (PrepareDirectories_process warc_prefix cwd now w).1 = it3.
Proof using Hname Hdata.
  rewrite stager_steps.
  destruct (if os_path_isdir _ _ _ then _ else _) as [m1 [[]|x]]; [|done].
  destruct (os_makedirs cwd dirname m1) as [m2 [[]|x]]; [|done].
  by destruct (open_w_close _ _ m2).
Qed.
End Stager.

Lemma stager_escaped (warc_prefix : string) (cwd : path) (now : struct_time)
    (w : world) (name : string) :
  w_item w !! "item_name" = Some name →
  w_item (PrepareDirectories_process warc_prefix cwd now w).1
    !! "escaped_item_name" = Some (escape name).
Proof.
  intros Hn. destruct (w_item w !! "data_dir") as [D|] eqn:Hd.
  - rewrite (stager_steps _ _ _ _ name D) by done.
    destruct (if os_path_isdir _ _ _ then _ else _) as [m1 [[]|x]];
      [|by cbn; rewrite lookup_insert_eq].
    destruct (os_makedirs _ _ m1) as [m2 [[]|x]];
      [|by cbn; rewrite lookup_insert_eq].
    destruct (open_w_close _ _ m2) as [m3 r3]. cbn.
    do 2 rewrite lookup_insert_ne by done. by rewrite lookup_insert_eq.
  - rewrite (stager_no_data_dir _ _ _ _ name) by done.
    cbn. by rewrite lookup_insert_eq.
Qed.

(** ** Sanitization *)

(** C9. For every item name, the sanitized name that the stager stores in
    [escaped_item_name] contains neither the path separator '/' nor a
    colon, and it is a function of the item name alone: two runs on the
    same name, whatever the prefix, the clock, the working directory and
    the rest of the world, store the same sanitized name. *)
Theorem escaped_item_name_clean (name : string)
    (prefix1 prefix2 : string) (cwd1 cwd2 : path) (now1 now2 : struct_time)
    (w1 w2 : world) :
  w_item w1 !! "item_name" = Some name →
  w_item w2 !! "item_name" = Some name →
  let e1 := w_item (PrepareDirectories_process prefix1 cwd1 now1 w1).1
              !! "escaped_item_name" in
  let e2 := w_item (PrepareDirectories_process prefix2 cwd2 now2 w2).1
              !! "escaped_item_name" in
  e1 = Some (escape name) ∧ e2 = e1 ∧
  ("/"%char ∉ chars (escape name)) ∧ (":"%char ∉ chars (escape name)).
Proof.
  intros H1 H2. cbn zeta. rewrite !(stager_escaped _ _ _ _ name) by done.
  split_and!; [done..| |]; rewrite chars_escape;
    intros (c & Hc & _)%list_elem_of_fmap; by destruct (canon_clean c).
Qed.

Lemma escaped_item_name_clean_witness :
  w_item (PrepareDirectories_process "examplecity" [] example_time
            example_world).1 !! "escaped_item_name"
    = Some (escape "smaug.fart.website:8080").
Proof.
  apply (escaped_item_name_clean "smaug.fart.website:8080"
           "examplecity" "other" [] ["tmp"] example_time example_later
           example_world example_world); reflexivity.
Defined.

(** The claim of C8 as it stands fails: an item name with a colon and
    the same name with a slash in its place are distinct and get the same
    sanitized name. *)
Lemma escape_not_injective :
  ¬ (∀ n1 n2 : string, n1 ≠ n2 → escape n1 ≠ escape n2).
Proof.
  intros H.
  apply (H "smaug.fart.website:8080" "smaug.fart.website/8080");
    [compute_done | vm_compute; reflexivity].
Qed.

(** C8, amended. Two item names get the same sanitized name, and with it
    the same [item_dir] under one [data_dir], exactly when they agree
    character by character once ':' and '/' are read as '_'; so distinct
    names that contain neither ':' nor '/' never share an [item_dir]. *)
Theorem escape_collisions (D n1 n2 : string) :
  (join "/" [D; escape n1] = join "/" [D; escape n2] ↔ escape n1 = escape n2) ∧
  (escape n1 = escape n2 ↔ canon <$> chars n1 = canon <$> chars n2) ∧
  ("/"%char ∉ chars n1 → ":"%char ∉ chars n1 →
   "/"%char ∉ chars n2 → ":"%char ∉ chars n2 →
   n1 ≠ n2 →
   escape n1 ≠ escape n2 ∧ join "/" [D; escape n1] ≠ join "/" [D; escape n2]).
Proof.
  assert (join "/" [D; escape n1] = join "/" [D; escape n2]
          ↔ escape n1 = escape n2) as Hdir.
  { cbn [join]. split; [|by intros ->].
    intros H. by do 2 apply (inj (String.app _)) in H. }
  split_and!; [done| |].
  - rewrite <-!chars_escape. split; [by intros ->|apply chars_inj].
  - intros ? ? ? ? Hne. rewrite Hdir.
    rewrite !escape_clean by done. done.
Qed.

Lemma escape_collisions_witness :
  escape "example.org" ≠ escape "example.com" ∧
  join "/" ["/tmp/out"; escape "example.org"]
    ≠ join "/" ["/tmp/out"; escape "example.com"].
Proof.
  apply (proj2 (proj2 (escape_collisions "/tmp/out" "example.org" "example.com")));
    compute_done.
Defined.

(** ** The name stem *)

(** The claim of C7 as it stands fails: a second run of the stager within
    the same second as the first gives the same [warc_file_base]. *)
Lemma warc_file_base_same_second :
  ¬ (∀ (warc_prefix : string) (cwd : path) (now1 now2 : struct_time) (w : world),
       let r1 := PrepareDirectories_process warc_prefix cwd now1 w in
       let r2 := PrepareDirectories_process warc_prefix cwd now2 r1.1 in
       r1.2 = Ok tt → r2.2 = Ok tt →
       w_item r1.1 !! "warc_file_base" ≠ w_item r2.1 !! "warc_file_base").
Proof.
  intros H.
  apply (H "examplecity" [] example_time example_time example_world);
    vm_compute; reflexivity.
Qed.

(** C7, amended. [warc_file_base] is [prefix-escaped_item_name-timestamp]
    with the timestamp of the local clock read to the second; two
    successful runs of the stager for the same item name give the same
    [warc_file_base] exactly when their clock readings agree to the
    second, so a repeated attempt gets a fresh name only from the next
    second on. *)
Theorem warc_file_base_by_second (warc_prefix : string) (cwd1 cwd2 : path)
    (now1 now2 : struct_time) (w1 w2 : world) (name : string) :
  w_item w1 !! "item_name" = Some name →
  w_item w2 !! "item_name" = Some name →
  valid_time now1 → valid_time now2 →
  let r1 := PrepareDirectories_process warc_prefix cwd1 now1 w1 in
  let r2 := PrepareDirectories_process warc_prefix cwd2 now2 w2 in
  r1.2 = Ok tt → r2.2 = Ok tt →
  w_item r1.1 !! "warc_file_base" =
    Some (warc_prefix +:+ "-" +:+ escape name +:+ "-" +:+
          strftime "%Y%m%d-%H%M%S" now1) ∧
  w_item r2.1 !! "warc_file_base" =
    Some (warc_prefix +:+ "-" +:+ escape name +:+ "-" +:+
          strftime "%Y%m%d-%H%M%S" now2) ∧
  (w_item r1.1 !! "warc_file_base" = w_item r2.1 !! "warc_file_base"
   ↔ now1 = now2).
Proof.
  intros Hn1 Hn2 V1 V2 r1 r2 Hr1 Hr2. subst r1 r2.
  destruct (w_item w1 !! "data_dir") as [D1|] eqn:Hd1;
    [|by rewrite (stager_no_data_dir _ _ _ _ name) in Hr1].
  destruct (w_item w2 !! "data_dir") as [D2|] eqn:Hd2;
    [|by rewrite (stager_no_data_dir _ _ _ _ name) in Hr2].
  rewrite (stager_item _ _ _ _ name D1), (stager_item _ _ _ _ name D2) by done.
  rewrite !lookup_insert_eq. split_and!; [done..|].
  split; [|by intros ->].
  intros H. injection H as H. do 4 apply (inj (String.app _)) in H.
  by apply strftime_inj.
Qed.

Lemma warc_file_base_by_second_witness :
  let r1 := PrepareDirectories_process "examplecity" [] example_time
              example_world in
  let r2 := PrepareDirectories_process "examplecity" [] example_later r1.1 in
  w_item r1.1 !! "warc_file_base" = w_item r2.1 !! "warc_file_base"
  ↔ example_time = example_later.
Proof.
  apply (warc_file_base_by_second "examplecity" [] [] example_time
           example_later example_world
           (PrepareDirectories_process "examplecity" [] example_time
              example_world).1 "smaug.fart.website:8080");
    first [ by vm_compute | compute_done ].
Defined.

(** ** Stats *)

(** C10. [stats_id_function] ignores its item: for any two items it
    returns the same record, whose keys are exactly [pipeline_hash],
    [script_hash] and [python_version]; the two digests are those of
    [pipeline.py] and [examplecity.py] as they were when the module was
    loaded, and the third field is the interpreter version. *)
Theorem stats_id_function_constant (g : globals) (it1 it2 : item) :
  stats_id_function g it1 = stats_id_function g it2 ∧
  dom (stats_id_function g it1)
    = ({["pipeline_hash"; "script_hash"; "python_version"]} : gset string) ∧
  stats_id_function g it1 !! "pipeline_hash" = Some (PIPELINE_SHA1 g) ∧
  stats_id_function g it1 !! "script_hash" = Some (SCRIPT_SHA1 g) ∧
  stats_id_function g it1 !! "python_version" = Some (sys_version g) ∧
  ∀ (sha1 : string → string) (m : fs) (cwd : path) (wpull version : string)
    (bind : option string) (dl : string),
    load sha1 m cwd wpull version bind dl = Ok g →
    ∃ src script,
      read_file m cwd (os_path_join (os_getcwd cwd) "pipeline.py") = Ok src ∧
      read_file m cwd (os_path_join (os_getcwd cwd) "examplecity.py") = Ok script ∧
      stats_id_function g it1 !! "pipeline_hash" = Some (sha1 src) ∧
      stats_id_function g it1 !! "script_hash" = Some (sha1 script) ∧
      stats_id_function g it1 !! "python_version" = Some version.
Proof.
  unfold stats_id_function. split_and!; [done|..].
  - rewrite !dom_insert_L, dom_empty_L. set_solver.
  - by lookup_ins.
  - by lookup_ins.
  - by lookup_ins.
  - intros sha1 m cwd wpull version bind dl. unfold load, get_hash.
    destruct (read_file m cwd (os_path_join _ "pipeline.py")) as [src|]; [|done].
    destruct (read_file m cwd (os_path_join _ "examplecity.py")) as [script|];
      [|done].
    cbn. intros [= <-]. exists src, script. cbn.
    split_and!; [done..| | |].
    + by lookup_ins.
    + by lookup_ins.
    + by lookup_ins.
Qed.

Lemma stats_id_function_constant_witness :
  ∃ src script,
    read_file example_src_fs ["home"; "warrior"]
      (os_path_join (os_getcwd ["home"; "warrior"]) "pipeline.py") = Ok src ∧
    read_file example_src_fs ["home"; "warrior"]
      (os_path_join (os_getcwd ["home"; "warrior"]) "examplecity.py")
      = Ok script ∧
    stats_id_function example_loaded example_item !! "pipeline_hash"
      = Some (String.rev src) ∧
    stats_id_function example_loaded example_item !! "script_hash"
      = Some (String.rev script) ∧
    stats_id_function example_loaded example_item !! "python_version"
      = Some "3.4.3".
Proof.
  apply (proj2 (proj2 (proj2 (proj2 (proj2
    (stats_id_function_constant example_loaded example_item ∅)))))
      String.rev example_src_fs ["home"; "warrior"] "./wpull" "3.4.3" None "me").
  vm_compute. reflexivity.
Defined.

(** ** The capture stage *)

(** C3. With [accept_on_exit_code = [0, 4, 7, 8]] and [max_tries = 2]: an
    invocation that exits with an accepted code (4, say) makes the stage
    succeed after that one invocation; when the executable never exits
    with an accepted code (always 1, say) it is invoked exactly twice,
    each time with freshly built arguments, and the stage then fails the
    item. *)
Theorem capture_stage_tries (build : nat → result (list string))
    (args : nat → list string) (exe : nat → Z) :
  (∀ k, build k = Ok (args k)) →
  max_tries WgetDownload = 2 ∧
  accept_on_exit_code WgetDownload = [0; 4; 7; 8]%Z ∧
  (exe 0 ∈ accept_on_exit_code WgetDownload →
   ExternalProcess_process WgetDownload build exe = ([args 0], Success)) ∧
  (exe 0 ∉ accept_on_exit_code WgetDownload →
   exe 1 ∉ accept_on_exit_code WgetDownload →
   ExternalProcess_process WgetDownload build exe
     = ([args 0; args 1], ItemFatal)).
Proof.
  intros Hb. split_and!; [done..| |].
  - intros H. unfold ExternalProcess_process. cbn. rewrite Hb.
    by rewrite bool_decide_eq_true_2.
  - intros H0 H1. unfold ExternalProcess_process. cbn. rewrite !Hb.
    rewrite bool_decide_eq_false_2 by done. cbn.
    by rewrite bool_decide_eq_false_2.
Qed.

Lemma capture_stage_tries_witness :
  ExternalProcess_process WgetDownload (λ _, Ok ["wpull"]) (λ _, 4%Z)
    = ([["wpull"]], Success) ∧
  ExternalProcess_process WgetDownload (λ _, Ok ["wpull"]) (λ _, 1%Z)
    = ([["wpull"]; ["wpull"]], ItemFatal).
Proof.
  split.
  - apply (proj1 (proj2 (proj2 (capture_stage_tries
      (λ _, Ok ["wpull"]) (λ _, ["wpull"]) (λ _, 4%Z) (λ _, eq_refl)))));
      compute_done.
  - apply (proj2 (proj2 (proj2 (capture_stage_tries
      (λ _, Ok ["wpull"]) (λ _, ["wpull"]) (λ _, 1%Z) (λ _, eq_refl)))));
      compute_done.
Defined.

(** ** CheckIP *)

Lemma size_add_le (X : gset string) (a : string) : size (X ∪ {[a]}) ≤ S (size X).
Proof.
  rewrite size_union_alt.
  assert (size (({[a]} : gset string) ∖ X) ≤ size ({[a]} : gset string)).
  { by apply subseteq_size, subseteq_difference_l. }
  rewrite size_singleton in *. lia.
Qed.

Lemma CheckIP_skip dns c s :
  (0 < c)%Z →
  CheckIP_process dns {| _counter := c; seen := s |}
    = ({| _counter := c - 1; seen := s |}, Ok tt).
Proof.
  intros H. unfold CheckIP_process, bind, get, ret, set_counter, modify.
  cbn [_counter seen]. rewrite decide_False by lia.
  cbn [_counter seen]. by rewrite decide_False by lia.
Qed.

Lemma CheckIP_check dns c s a1 a2 a3 a4 a5 a6 :
  (c ≤ 0)%Z →
  dns "twitter.com" = Ok a1 → dns "facebook.com" = Ok a2 →
  dns "youtube.com" = Ok a3 → dns "microsoft.com" = Ok a4 →
  dns "icanhas.cheezburger.com" = Ok a5 → dns "archiveteam.org" = Ok a6 →
  let ip_set := six a1 a2 a3 a4 a5 a6 in
  let asked := s ++ log_output "Checking IP address." :: (dns_query <$> hostnames) in
  CheckIP_process dns {| _counter := c; seen := s |} =
    if decide (size ip_set ≠ 6)
    then ({| _counter := c;
             seen := asked ++ [log_ip_set ip_set; log_output firewall_msg] |},
          Raise (Exception firewall_msg))
    else ({| _counter := 10; seen := asked |}, Ok tt).
Proof.
  intros Hc H1 H2 H3 H4 H5 H6 ip_set asked.
  unfold CheckIP_process, bind, get, ret, raise, gethostbyname, emit, lift,
    set_counter, modify, bind.
  cbn [_counter seen]. rewrite decide_True by done.
  rewrite H1, H2, H3, H4, H5, H6. cbn [_counter seen]. fold (six a1 a2 a3 a4 a5 a6). fold ip_set.
  destruct (decide (size ip_set ≠ 6)).
  - unfold asked. cbn. rewrite <-!app_assoc. done.
  - cbn [_counter seen]. rewrite decide_True by done. unfold asked. cbn. by rewrite <-!app_assoc.
Qed.

Lemma six_le a1 a2 a3 a4 a5 a6 : size (six a1 a2 a3 a4 a5 a6) ≤ 6.
Proof.
  unfold six.
  repeat (etrans; [apply size_add_le|]; apply le_n_S).
  by rewrite size_empty.
Qed.

(** Whatever the resolver answers, an invocation with [_counter ≤ 0]
    queries it, and one with [_counter > 0] does not. *)
Lemma CheckIP_step dns c :
  let '(self', r) := CheckIP_process dns {| _counter := c; seen := [] |} in
  ((c ≤ 0)%Z ∧ checked (seen self', r) = true ∧
   (r = Ok tt → _counter self' = 10%Z ∧ queries (seen self') = hostnames)) ∨
  ((0 < c)%Z ∧ seen self' = [] ∧ r = Ok tt ∧ _counter self' = (c - 1)%Z).
Proof.
  destruct (decide (c ≤ 0)%Z) as [Hc|Hc].
  - unfold CheckIP_process, bind, get, ret, raise, gethostbyname, emit, lift,
      set_counter, modify, bind.
    cbn [_counter seen]. rewrite decide_True by done.
    destruct (dns "twitter.com"); [|by left].
    destruct (dns "facebook.com"); [|by left].
    destruct (dns "youtube.com"); [|by left].
    destruct (dns "microsoft.com"); [|by left].
    destruct (dns "icanhas.cheezburger.com"); [|by left].
    destruct (dns "archiveteam.org"); [|by left].
    cbn [_counter seen]. case_decide; [by left|].
    cbn [_counter seen]. rewrite decide_True by done. by left.
  - rewrite CheckIP_skip by lia. right. split_and!; [lia|done..].
Qed.

Lemma CheckIP_run_cadence dnss : ∀ (self : CheckIP) (i : nat) inv,
  (0 ≤ _counter self ≤ 10)%Z →
  CheckIP_run dnss self !! i = Some inv →
  (∀ j inv', j < i → CheckIP_run dnss self !! j = Some inv' → inv'.2 = Ok tt) →
  (checked inv = true ↔ ((Z.of_nat i - _counter self) mod 11 = 0)%Z) ∧
  (checked inv = true → inv.2 = Ok tt → queries inv.1 = hostnames) ∧
  (checked inv = false → inv = ([], Ok tt)).
Proof.
  induction dnss as [|dns rest IH]; intros self i inv Hc Hi Hok; [done|].
  cbn [CheckIP_run] in Hi, Hok.
  pose proof (CheckIP_step dns (_counter self)) as Hstep.
  destruct (CheckIP_process dns _) as [self' r].
  destruct i as [|i].
  - injection Hi as <-. clear Hok IH.
    destruct Hstep as [(H0 & Hch & Hq)|(H0 & Hs & -> & Hc')].
    + rewrite Hch. split_and!; [|by intros _ [_ ?]%Hq|done].
      split; [intros _|done]. replace (_counter self) with 0%Z by lia. done.
    + rewrite Hs. split_and!; [|done..].
      split; [done|]. intros H. exfalso. revert H.
      Z.to_euclidean_division_equations. lia.
  - cbn in Hi.
    assert (r = Ok tt) as ->.
    { apply (Hok 0 (seen self', r)); [lia|done]. }
    destruct (IH self' i inv) as (Hiff & Hq & Hn); [|done| |].
    + destruct Hstep as [(H0 & _ & Hr)|(H0 & _ & _ & Hc')]; [|lia].
      destruct Hr as [-> _]; [done|lia].
    + intros j inv' Hj Hj'. apply (Hok (S j) inv'); [lia|done].
    + split_and!; [|done..]. rewrite Hiff.
      destruct Hstep as [(H0 & _ & Hr)|(H0 & _ & _ & Hc')].
      * destruct Hr as [-> _]; [done|]. replace (_counter self) with 0%Z by lia.
        Z.to_euclidean_division_equations. lia.
      * rewrite Hc'.
        by replace (Z.of_nat (S i) - _counter self)%Z
          with (Z.of_nat i - (_counter self - 1))%Z by lia.
Qed.

(** C1. When the guard performs its check ([_counter ≤ 0]) and the six
    hostnames resolve, it queries exactly those six names once each and
    collects the answers in a set of at most six addresses; it raises
    the firewall error, leaving the counter as it was, if and only if
    the set has fewer than six elements, and it returns normally, with
    the counter reset to 10, if and only if the set has six. *)
Theorem CheckIP_fatal_iff (dns : string → result string) (c : Z)
    (s : list event) (a1 a2 a3 a4 a5 a6 : string) :
  (c ≤ 0)%Z →
  dns "twitter.com" = Ok a1 → dns "facebook.com" = Ok a2 →
  dns "youtube.com" = Ok a3 → dns "microsoft.com" = Ok a4 →
  dns "icanhas.cheezburger.com" = Ok a5 → dns "archiveteam.org" = Ok a6 →
  let ip_set := six a1 a2 a3 a4 a5 a6 in
  let out := CheckIP_process dns {| _counter := c; seen := s |} in
  queries (seen out.1) = queries s ++ hostnames ∧
  size ip_set ≤ length hostnames ∧
  (out.2 = Raise (Exception firewall_msg) ↔ size ip_set < length hostnames) ∧
  (out.2 = Ok tt ↔ size ip_set = length hostnames) ∧
  (size ip_set < length hostnames → _counter out.1 = c) ∧
  (size ip_set = length hostnames → _counter out.1 = 10%Z).
Proof.
  intros Hc H1 H2 H3 H4 H5 H6 ip_set out. subst out.
  rewrite (CheckIP_check dns c s a1 a2 a3 a4 a5 a6) by done.
  pose proof (six_le a1 a2 a3 a4 a5 a6) as Hle. fold ip_set in Hle |- *.
  cbn [length hostnames].
  destruct (decide (size ip_set ≠ 6)) as [Hne|Heq]; cbn [fst snd _counter seen].
  - split_and!; [|lia|split; [lia|done]|split; [done|lia]|done|lia].
    unfold queries. rewrite <-!app_assoc, !omap_app. by rewrite app_nil_r.
  - split_and!; [|lia|split; [done|lia]|split; [lia|done]|lia|done].
    unfold queries. by rewrite omap_app.
Qed.

Lemma CheckIP_fatal_iff_witness :
  (CheckIP_process collapsing_dns CheckIP_init).2
    = Raise (Exception firewall_msg) ↔
  size (six "10.0.0.1" "10.0.0.1" "10.0.0.1" "10.0.0.1" "10.0.0.1" "10.0.0.1")
    < length hostnames.
Proof.
  apply (CheckIP_fatal_iff collapsing_dns 0 [] "10.0.0.1" "10.0.0.1"
           "10.0.0.1" "10.0.0.1" "10.0.0.1" "10.0.0.1");
    first [ reflexivity | lia ].
Defined.

(** An invocation keeps the counter within the interval, and an
    exception leaves it as it was. *)
Lemma CheckIP_counter dns c :
  (0 ≤ c ≤ 10)%Z →
  let '(self', r) := CheckIP_process dns {| _counter := c; seen := [] |} in
  (0 ≤ _counter self' ≤ 10)%Z ∧ (r ≠ Ok tt → _counter self' = c).
Proof.
  intros Hc. destruct (decide (c ≤ 0)%Z) as [H0|H0].
  - unfold CheckIP_process, bind, get, ret, raise, gethostbyname, emit, lift,
      set_counter, modify, bind.
    cbn [_counter seen]. rewrite decide_True by done.
    repeat (destruct (dns _); [|done]).
    cbn [_counter seen]. case_decide; [done|].
    cbn [_counter seen]. rewrite decide_True by done. cbn. split; [lia|done].
  - rewrite CheckIP_skip by lia. cbn. split; [lia|done].
Qed.

(** From a counter [c], the next [c] invocations skip the check and the
    one after them performs it. *)
Lemma CheckIP_run_skips dnss : ∀ (self : CheckIP) (j : nat) inv,
  (0 ≤ _counter self ≤ 10)%Z →
  CheckIP_run dnss self !! j = Some inv →
  ((Z.of_nat j < _counter self)%Z → inv = ([], Ok tt)) ∧
  (Z.of_nat j = _counter self → checked inv = true).
Proof.
  induction dnss as [|dns rest IH]; intros self j inv Hc Hj; [done|].
  cbn [CheckIP_run] in Hj.
  pose proof (CheckIP_step dns (_counter self)) as Hstep.
  destruct (CheckIP_process dns _) as [self' r].
  destruct j as [|j].
  - injection Hj as <-.
    destruct Hstep as [(H0 & Hch & _)|(H0 & Hs & -> & _)].
    + split; [lia|done].
    + rewrite Hs. split; [done|lia].
  - cbn in Hj. destruct Hstep as [(H0 & _)|(H0 & _ & _ & Hc')]; [lia|].
    destruct (IH self' j inv) as [IH1 IH2]; [lia|done|].
    split; intros ?; [apply IH1|apply IH2]; lia.
Qed.

(** Every invocation of a run starts from a counter within the interval,
    and the rest of the run goes on from the object it leaves. *)
Lemma CheckIP_run_at dnss : ∀ (self : CheckIP) (i : nat) inv,
  (0 ≤ _counter self ≤ 10)%Z →
  CheckIP_run dnss self !! i = Some inv →
  ∃ dns c self',
    (0 ≤ c ≤ 10)%Z ∧
    CheckIP_process dns {| _counter := c; seen := [] |} = (self', inv.2) ∧
    seen self' = inv.1 ∧
    drop (S i) (CheckIP_run dnss self) = CheckIP_run (drop (S i) dnss) self'.
Proof.
  induction dnss as [|dns rest IH]; intros self i inv Hc Hi; [done|].
  cbn [CheckIP_run] in Hi |- *.
  pose proof (CheckIP_counter dns (_counter self) Hc) as Hcnt.
  destruct (CheckIP_process dns _) as [self' r] eqn:Hp.
  destruct i as [|i].
  - injection Hi as <-. exists dns, (_counter self), self'. by rewrite Hp.
  - cbn in Hi. destruct (IH self' i inv) as (dns' & c & s' & ? & ? & ? & ?);
      [by destruct Hcnt|done|].
    by exists dns', c, s'.
Qed.

Lemma CheckIP_run_after dnss (i : nat) inv :
  CheckIP_run dnss CheckIP_init !! i = Some inv →
  (checked inv = true → inv.2 = Ok tt →
     queries inv.1 = hostnames ∧
     ∀ k inv', CheckIP_run dnss CheckIP_init !! (i + k) = Some inv' →
       (1 ≤ k ≤ 10 → inv' = ([], Ok tt)) ∧ (k = 11 → checked inv' = true)) ∧
  (checked inv = false → inv = ([], Ok tt)).
Proof.
  intros Hi.
  destruct (CheckIP_run_at dnss CheckIP_init i inv) as (dns & c & s' & Hc & Hp & Hs & Hd);
    [done..|].
  pose proof (CheckIP_step dns c) as Hstep.
  pose proof (CheckIP_counter dns c Hc) as Hcnt.
  rewrite Hp in Hstep, Hcnt. rewrite Hs in Hstep.
  destruct inv as [es r]. cbn [fst snd] in *.
  destruct Hstep as [(H0 & Hch & Hq)|(H0 & -> & -> & _)].
  - rewrite Hch. split; [|done]. intros _ ->.
    destruct Hq as [H10 Hq]; [done|]. split; [done|].
    intros k inv' Hk. destruct k as [|k].
    { split; [lia|done]. }
    assert (CheckIP_run (drop (S i) dnss) s' !! k = Some inv') as Hk'.
    { rewrite <-Hd, lookup_drop. by replace (S i + k) with (i + S k) by lia. }
    destruct (CheckIP_run_skips (drop (S i) dnss) s' k inv') as [H1 H2];
      [lia|done|].
    split; intros ?; [apply H1|apply H2]; lia.
  - done.
Qed.

(** The claim of C2 as it stands fails: a check that raises leaves the
    counter at 0, so the invocation right after it checks again. With a
    resolver that collapses all hosts first and a sound one next, the
    hostnames are resolved at invocation 0 and again at invocation 1:
    the checks are not eleven invocations apart, and not at the multiples
    of 11 only. *)
Lemma CheckIP_checks_again_at_once :
  ¬ (∀ (dnss : list (string → result string)) (i : nat)
       (inv : list event * result unit),
       CheckIP_run dnss CheckIP_init !! i = Some inv →
       (checked inv = true ↔ i mod 11 = 0)) ∧
  ¬ (∀ (dnss : list (string → result string)) (i j : nat)
       (inv inv' : list event * result unit),
       CheckIP_run dnss CheckIP_init !! i = Some inv →
       CheckIP_run dnss CheckIP_init !! j = Some inv' →
       checked inv = true → checked inv' = true → i < j → i + 11 ≤ j).
Proof.
  split; intros H.
  - destruct (H [collapsing_dns; example_dns] 1 _ eq_refl) as [H1 _].
    by specialize (H1 eq_refl).
  - specialize (H [collapsing_dns; example_dns] 0 1 _ _ eq_refl eq_refl
                  eq_refl eq_refl).
    lia.
Qed.

(** C2, amended. The counter starts at 0; an invocation with a positive
    counter decrements it and resolves nothing; a check that passes
    resets the counter to 10. So over any sequence of invocations on one
    guard, a check that passes queries each hostname once and is followed
    by ten invocations that do nothing but count down, and then by the
    next check; and as long as no earlier invocation has raised, the
    invocation number [i] (from 0) resolves the hostnames exactly when
    [i] is a multiple of 11. *)
Theorem CheckIP_cadence (dnss : list (string → result string)) (i : nat)
    (inv : list event * result unit) :
  CheckIP_run dnss CheckIP_init !! i = Some inv →
  _counter CheckIP_init = 0%Z ∧
  (∀ dns self, (0 < _counter self)%Z →
     CheckIP_process dns self
       = ({| _counter := _counter self - 1; seen := seen self |}, Ok tt)) ∧
  (∀ dns self, (_counter self ≤ 0)%Z →
     (CheckIP_process dns self).2 = Ok tt →
     _counter (CheckIP_process dns self).1 = 10%Z) ∧
  (Forall (λ inv', inv'.2 = Ok tt) (take i (CheckIP_run dnss CheckIP_init)) →
   (checked inv = true ↔ i mod 11 = 0)) ∧
  (checked inv = true → inv.2 = Ok tt →
     queries inv.1 = hostnames ∧
     ∀ k inv', CheckIP_run dnss CheckIP_init !! (i + k) = Some inv' →
       (1 ≤ k ≤ 10 → inv' = ([], Ok tt)) ∧ (k = 11 → checked inv' = true)) ∧
  (checked inv = false → inv = ([], Ok tt)).
Proof.
  intros Hi. destruct (CheckIP_run_after dnss i inv Hi) as [Hpass Hskip].
  split_and!; [done| | | |done..].
  - intros dns [c s] Hc. by apply CheckIP_skip.
  - intros dns [c s] Hc. cbn [_counter] in Hc.
    unfold CheckIP_process, bind, get, ret, raise, gethostbyname, emit, lift,
      set_counter, modify, bind.
    cbn [_counter seen]. rewrite decide_True by done.
    repeat (destruct (dns _); [|done]).
    cbn [_counter seen]. case_decide; [done|].
    cbn [_counter seen]. by rewrite decide_True.
  - intros Hok.
    destruct (CheckIP_run_cadence dnss CheckIP_init i inv) as (Hiff & _);
      [done|done| |].
    + intros j inv' Hj Hl. rewrite Forall_lookup in Hok. apply (Hok j).
      by rewrite lookup_take_lt.
    + rewrite Hiff. cbn [_counter CheckIP_init].
      split; intros H; revert H; zify; Z.to_euclidean_division_equations; lia.
Qed.

Lemma CheckIP_cadence_witness :
  let run := CheckIP_run (replicate 23 example_dns) CheckIP_init in
  (checked (default ([], Ok tt) (run !! 11)) = true ↔ 11 mod 11 = 0) ∧
  (checked (default ([], Ok tt) (run !! 7)) = true ↔ 7 mod 11 = 0).
Proof.
  split.
  - apply (proj1 (proj2 (proj2 (proj2 (CheckIP_cadence
      (replicate 23 example_dns) 11 _ ltac:(vm_compute; reflexivity)))))).
    compute_done.
  - apply (proj1 (proj2 (proj2 (proj2 (CheckIP_cadence
      (replicate 23 example_dns) 7 _ ltac:(vm_compute; reflexivity)))))).
    compute_done.
Defined.

(** ** WgetArgs *)

Lemma format0_http (d : string) : format0 "http://{0}" d = "http://" +:+ d.
Proof. cbn. by rewrite app_empty_r. Qed.

Lemma format0_bind (d : string) :
  format0 "*** Wget will bind address at {0} ***" d
  = "*** Wget will bind address at " +:+ d +:+ " ***".
Proof. reflexivity. Qed.

Lemma WgetArgs_steps (g : globals) (it : item) (out : list string)
    (idir base name : string) :
  it !! "item_dir" = Some idir → it !! "warc_file_base" = Some base →
  it !! "item_name" = Some name →
  WgetArgs_realize g it out =
    match bind_address g with
    | Some addr =>
        (out ++ [""; "*** Wget will bind address at " +:+ addr +:+ " ***"; ""],
         Ok (realized_args g idir base name ++ ["--bind-address"; addr]))
    | None => (out, Ok (realized_args g idir base name))
    end.
Proof.
  intros Hd Hb Hn.
  unfold WgetArgs_realize, bind, lift, ret, print, modify, getitem.
  rewrite Hn, format0_http.
  destruct (bind_address g) as [addr|].
  - rewrite format0_bind. cbn [app realize realize_arg rbind].
    unfold pct_format. cbn. unfold getitem. rewrite Hd, Hb, Hn. cbn.
    by rewrite !app_empty_r, <-!app_assoc.
  - cbn [app realize realize_arg rbind].
    unfold pct_format. cbn. unfold getitem. rewrite Hd, Hb, Hn. cbn.
    by rewrite !app_empty_r.
Qed.

(** The claim of C6 as it stands fails: for the item of the pipeline,
    prepared by the stager, the sanitized name is
    [smaug.fart.website_8080], but the headers of the command line carry
    [smaug.fart.website:8080] and none of them contains the sanitized
    name. And with [item_dir] and [warc_file_base] set but no
    [item_name], there is no command line at all. *)
Lemma warc_header_not_sanitized :
  let it := w_item (PrepareDirectories_process "examplecity" []
                      example_time example_world).1 in
  let args := (WgetArgs_realize example_globals it []).2 in
  it !! "escaped_item_name" = Some "smaug.fart.website_8080" ∧
  rbind args (λ a, Ok (values_of "--warc-header" a)) =
    Ok ["operator: Archive Team";
        "examplecity-dld-script-version: 20150321.01";
        "examplecity-user: smaug.fart.website:8080"] ∧
  rbind args (λ a, Ok (existsb (infix "smaug.fart.website_8080")
                         (values_of "--warc-header" a))) = Ok false ∧
  (WgetArgs_realize example_globals bare_item []).2
    = Raise (KeyError "item_name").
Proof. vm_compute. done. Qed.

(** C6, amended. For any item with [item_dir], [warc_file_base] and
    [item_name] set, the argument builder returns a command line in which
    [--warc-file] is followed by [item_dir/warc_file_base] and three
    [--warc-header] options carry the operator tag, the pipeline version
    and the item name as it is, not sanitized. *)
Theorem WgetArgs_provenance (g : globals) (it : item) (out : list string)
    (idir base name : string) :
  it !! "item_dir" = Some idir → it !! "warc_file_base" = Some base →
  it !! "item_name" = Some name →
  ∃ args,
    (WgetArgs_realize g it out).2 = Ok args ∧
    args = realized_args g idir base name
           ++ match bind_address g with
              | Some addr => ["--bind-address"; addr]
              | None => []
              end ∧
    follows "--warc-file" (idir +:+ "/" +:+ base) args ∧
    follows "--warc-header" "operator: Archive Team" args ∧
    follows "--warc-header" ("examplecity-dld-script-version: " +:+ VERSION) args ∧
    follows "--warc-header" ("examplecity-user: " +:+ name) args.
Proof.
  intros Hd Hb Hn. rewrite (WgetArgs_steps g it out idir base name) by done.
  eexists. split; [|split; [reflexivity|]].
  { destruct (bind_address g); cbn [snd]; [done|]. by rewrite app_nil_r. }
  unfold follows, realized_args.
  split_and!.
  - eexists (take 28 (realized_args g idir base name)), _. reflexivity.
  - eexists (take 30 (realized_args g idir base name)), _. reflexivity.
  - eexists (take 32 (realized_args g idir base name)), _. reflexivity.
  - eexists (take 34 (realized_args g idir base name)), _. reflexivity.
Qed.

Lemma WgetArgs_provenance_witness :
  ∃ args,
    (WgetArgs_realize example_globals
       (w_item (PrepareDirectories_process "examplecity" [] example_time
                  example_world).1) []).2 = Ok args ∧
    args = realized_args example_globals "/tmp/out/smaug.fart.website_8080"
             "examplecity-smaug.fart.website_8080-20150321-090559"
             "smaug.fart.website:8080" ++ [] ∧
    follows "--warc-file"
      ("/tmp/out/smaug.fart.website_8080" +:+ "/" +:+
       "examplecity-smaug.fart.website_8080-20150321-090559") args ∧
    follows "--warc-header" "operator: Archive Team" args ∧
    follows "--warc-header" ("examplecity-dld-script-version: " +:+ VERSION) args ∧
    follows "--warc-header" ("examplecity-user: " +:+ "smaug.fart.website:8080")
      args.
Proof.
  apply (WgetArgs_provenance example_globals _ []
           "/tmp/out/smaug.fart.website_8080"
           "examplecity-smaug.fart.website_8080-20150321-090559"
           "smaug.fart.website:8080"); vm_compute; reflexivity.
Defined.

(** * The file system at work *)

(** ** Paths *)

Lemma split_slash_cons (s : string) : ∃ h t, split_slash s = h :: t.
Proof.
  induction s as [|c s (h & t & IH)]; [by eexists _, _|].
  cbn. destruct (Ascii.eqb c "/"); [by eexists _, _|].
  rewrite IH. by eexists _, _.
Qed.

Lemma split_slash_app (a b : string) :
  split_slash (a +:+ "/" +:+ b) = split_slash a ++ split_slash b.
Proof.
  induction a as [|c a IH]; [done|].
  rewrite app_String. cbn [split_slash]. rewrite IH.
  destruct (Ascii.eqb c "/"); [done|].
  by destruct (split_slash_cons a) as (h & t & ->).
Qed.

Lemma split_slash_plain (s : string) :
  "/"%char ∉ chars s → split_slash s = [s].
Proof.
  induction s as [|c s IH]; [done|]. intros [Hc Hs]%not_elem_of_cons.
  cbn. destruct (Ascii.eqb_spec c "/") as [->|_]; [done|]. by rewrite IH.
Qed.

Lemma start_app (cwd : path) (a x y : string) :
  start cwd (a +:+ "/" +:+ x) = start cwd (a +:+ "/" +:+ y).
Proof. by destruct a. Qed.

Lemma app_slash_nonempty (a x : string) : a +:+ "/" +:+ x ≠ "".
Proof. by destruct a. Qed.

Lemma normal_enter (cur : path) (c : string) :
  normal c → enter cur c = cur ++ [c].
Proof.
  intros (_ & H1 & H2 & H3). unfold enter, is_dot.
  rewrite !bool_decide_eq_false_2 by done. cbn. by rewrite decide_False.
Qed.

Lemma walk_app (m : fs) (cs1 cs2 : list string) : ∀ cur,
  walk m cur (cs1 ++ cs2) = rbind (walk m cur cs1) (λ d, walk m d cs2).
Proof.
  induction cs1 as [|c cs1 IH]; intros cur; [done|].
  cbn. destruct (m !! cur) as [[]|]; [|done..]. apply IH.
Qed.

Lemma walk_mono (m m' : fs) (cs : list string) : ∀ cur d,
  (∀ p, m !! p = Some Dir → m' !! p = Some Dir) →
  walk m cur cs = Ok d → walk m' cur cs = Ok d.
Proof.
  induction cs as [|c cs IH]; intros cur d Hm; [done|].
  cbn. destruct (m !! cur) as [[]|] eqn:E; [|done..].
  rewrite (Hm _ E). by apply IH.
Qed.

Lemma resolve_walk (m : fs) (cwd : path) (s : string) :
  s ≠ "" → resolve m cwd s = walk m (start cwd s) (split_slash s).
Proof. by destruct s. Qed.

Lemma resolve_entry (m : fs) (cwd : path) (a c : string) (d : path) :
  normal c →
  walk m (start cwd (a +:+ "/" +:+ c)) (split_slash a) = Ok d →
  resolve m cwd (a +:+ "/" +:+ c) =
    match m !! d with
    | Some Dir => Ok (d ++ [c])
    | Some (File _) => Raise (OSError ENOTDIR)
    | None => Raise (OSError ENOENT)
    end.
Proof.
  intros Hc Hd. rewrite resolve_walk by apply app_slash_nonempty.
  rewrite split_slash_app, walk_app, Hd. cbn [rbind].
  rewrite split_slash_plain by apply Hc. cbn.
  destruct (m !! d) as [[]|]; [|done..]. by rewrite normal_enter.
Qed.

(** ** Well-formed file systems *)

Lemma wf_parent (m : fs) (p : path) (c : string) :
  fs_wf m → is_Some (m !! (p ++ [c])) → m !! p = Some Dir.
Proof.
  intros [_ Hwf] [n Hn]. specialize (Hwf _ _ Hn). cbn in Hwf.
  by rewrite removelast_last in Hwf.
Qed.

Lemma wf_above (m : fs) (q : path) (k : list string) :
  fs_wf m → k ≠ [] → is_Some (m !! (q ++ k)) → m !! q = Some Dir.
Proof.
  intros Hwf. induction k as [|c k IH] using rev_ind; [done|]. intros _ Hs.
  rewrite app_assoc in Hs. apply wf_parent in Hs; [|done].
  destruct k as [|c' k]; [by rewrite app_nil_r in Hs|].
  apply IH; [done|]. by rewrite Hs.
Qed.

Lemma below_app (d p : path) : below d p ↔ ∃ k, k ≠ [] ∧ p = d ++ k.
Proof.
  unfold below. split.
  - intros [[k ->] Hne]. exists k. split; [|done]. intros ->.
    by rewrite app_nil_r in Hne.
  - intros (k & Hk & ->). split; [by exists k|].
    intros H. apply Hk. apply (inj (app d)). by rewrite app_nil_r.
Qed.

Lemma subtree_empty (m : fs) (d : path) :
  subtree m d = ∅ ↔ ∀ p, below d p → m !! p = None.
Proof.
  unfold subtree. rewrite map_empty_filter. split.
  - intros H p Hp. destruct (m !! p) eqn:E; [|done].
    by destruct (H _ _ E).
  - intros H p n E Hp. cbn in Hp. by rewrite (H _ Hp) in E.
Qed.

Lemma wf_absent (m : fs) (d : path) :
  fs_wf m → m !! d ≠ Some Dir → subtree m d = ∅.
Proof.
  intros Hwf Hd. apply subtree_empty. intros p (k & Hk & ->)%below_app.
  destruct (m !! (d ++ k)) eqn:E; [|done].
  destruct Hd. apply (wf_above m d k); [done..|]. by rewrite E.
Qed.

Lemma wf_insert (m : fs) (p : path) (c : string) (n : node) :
  fs_wf m → m !! p = Some Dir → m !! (p ++ [c]) ≠ Some Dir →
  fs_wf (<[p ++ [c] := n]> m).
Proof.
  intros [Hroot Hwf] Hp Hc. split.
  - rewrite lookup_insert_ne; [done|]. by destruct p.
  - intros k x. cbn beta. rewrite lookup_insert. case_decide as Hk.
    + intros _. subst k. rewrite removelast_last.
      rewrite lookup_insert_ne; [done|].
      intros H. apply (f_equal length) in H. rewrite length_app in H. cbn in H. lia.
    + intros Hx. specialize (Hwf _ _ Hx). cbn in Hwf |- *.
      rewrite lookup_insert_ne; [done|]. intros Heq. apply Hc. by rewrite Heq.
Qed.


(** ** makedirs *)

Lemma makedirs_walk_ok (cs : list string) : ∀ (m m' : fs) (cur : path) (fresh : bool),
  fs_wf m →
  (fresh = true → m !! cur = Some Dir ∧ subtree m cur = ∅) →
  makedirs_walk m cur fresh cs = (m', Ok tt) →
  ∃ d, walk m' cur cs = Ok d ∧ m' !! d = Some Dir ∧ subtree m' d = ∅ ∧
       fs_wf m' ∧ (∀ p, m !! p = Some Dir → m' !! p = Some Dir).
Proof.
  induction cs as [|c cs IH]; intros m m' cur fresh Hwf Hfresh.
  { cbn. destruct fresh; [|done]. intros [= <-]. exists cur.
    destruct Hfresh as [? ?]; done. }
  assert (fresh = true → subtree m cur = ∅) as Hsub by (by intros [_ ?]%Hfresh).
  clear Hfresh.
  cbn. destruct (m !! cur) as [[]|] eqn:Hcur; [|done..].
  assert (fresh = true → m !! cur = Some Dir ∧ subtree m cur = ∅) as Hfresh
    by (by intros ?%Hsub).
  unfold enter. destruct (is_dot c).
  { intros H. destruct (IH _ _ _ _ Hwf Hfresh H) as (d & Hd & ? & ? & ? & Hm).
    exists d. by rewrite (Hm _ Hcur). }
  destruct (decide (c = "..")) as [->|Hc].
  { intros H. destruct (IH _ _ _ false Hwf ltac:(done) H) as (d & Hd & ? & ? & ? & Hm).
    exists d. by rewrite (Hm _ Hcur). }
  destruct (m !! (cur ++ [c])) as [n|] eqn:Hnew.
  { intros H. destruct (IH _ _ _ false Hwf ltac:(done) H) as (d & Hd & ? & ? & ? & Hm).
    exists d. by rewrite (Hm _ Hcur). }
  intros H.
  assert (fs_wf (<[cur ++ [c] := Dir]> m)) as Hwf'.
  { apply wf_insert; [done..|]. by rewrite Hnew. }
  destruct (IH (<[cur ++ [c] := Dir]> m) m' (cur ++ [c]) true Hwf')
    as (d & Hd & ? & ? & ? & Hm); [|done|].
  { intros _. split; [by rewrite lookup_insert_eq|].
    apply subtree_empty. intros p Hp.
    rewrite lookup_insert_ne by (by destruct Hp).
    assert (subtree m (cur ++ [c]) = ∅) as He
      by (apply wf_absent; [done|by rewrite Hnew]).
    by apply subtree_empty with (p := p) in He. }
  assert (∀ p, m !! p = Some Dir → m' !! p = Some Dir) as Hm'.
  { intros p Hp. apply Hm. rewrite lookup_insert_ne; [done|].
    intros <-. by rewrite Hnew in Hp. }
  exists d. by rewrite (Hm' _ Hcur).
Qed.

(** ** rmtree *)

Lemma removelast_prefix (k : path) : removelast k `prefix_of` k.
Proof.
  destruct k as [|a k] using rev_ind; [done|].
  rewrite removelast_last. by apply prefix_app_r.
Qed.

Lemma rmdir_errno_root (s : string) (d : path) : rmdir_errno s d = None → d ≠ [].
Proof.
  unfold rmdir_errno. destruct (last_component s); [|done].
  repeat case_decide; done.
Qed.

Lemma rmtree_wf (cwd : path) (s : string) (m m' : fs) :
  fs_wf m → shutil_rmtree cwd s m = (m', Ok tt) → fs_wf m'.
Proof.
  intros [Hroot Hwf]. unfold shutil_rmtree.
  destruct (resolve m cwd s) as [d|]; [|done].
  destruct (m !! d) as [[]|] eqn:Hd; [|done..].
  destruct (rmdir_errno s d) eqn:He; [done|]. intros [= <-].
  apply rmdir_errno_root in He.
  assert (∀ k, ¬ d `prefix_of` k → 
    delete d (filter (λ kv : path * node, ¬ below d kv.1) m) !! k = m !! k) as Hkeep.
  { intros k Hk. rewrite lookup_delete_ne by (by intros ->).
    destruct (m !! k) eqn:E.
    - apply map_lookup_filter_Some_2; [done|]. cbn. by intros [? _].
    - apply map_lookup_filter_None_2. by left. }
  split.
  - rewrite Hkeep; [done|]. by intros ->%prefix_nil_inv.
  - intros k x Hk. cbn beta.
    assert (¬ d `prefix_of` k) as Hnp.
    { intros Hp. destruct (decide (k = d)) as [->|Hne].
      - by rewrite lookup_delete_eq in Hk.
      - rewrite lookup_delete_ne in Hk by done.
        apply map_lookup_filter_Some_1_2 in Hk. by apply Hk. }
    rewrite Hkeep in Hk by done.
    rewrite Hkeep; [by apply (Hwf _ _ Hk)|].
    intros Hp. apply Hnp. etrans; [done|]. apply removelast_prefix.
Qed.

(** ** The name of the output file *)

Lemma digit_not_slash (n : nat) : digit n ≠ "/"%char.
Proof.
  unfold digit. intros H. apply (f_equal nat_of_ascii) in H.
  rewrite nat_ascii_embedding in H
    by (pose proof (Nat.mod_upper_bound n 10); lia).
  change (nat_of_ascii "/") with 47 in H. lia.
Qed.

Lemma stamp_no_slash (now : struct_time) :
  "/"%char ∉ chars (strftime "%Y%m%d-%H%M%S" now).
Proof.
  rewrite strftime_stamp. unfold dec4, dec2.
  rewrite !app_String, !app_empty_l. cbn [chars list_ascii_of_string].
  rewrite !not_elem_of_cons.
  split_and!;
    first [ apply not_elem_of_nil
          | by intros H; symmetry in H; apply digit_not_slash in H
          | done ].
Qed.

Lemma escape_no_slash (name : string) : "/"%char ∉ chars (escape name).
Proof.
  rewrite chars_escape. intros (c & Hc & _)%list_elem_of_fmap.
  by destruct (canon_clean c).
Qed.

Lemma warc_gz_normal (warc_prefix name : string) (now : struct_time) :
  "/"%char ∉ chars warc_prefix →
  normal ((warc_prefix +:+ "-" +:+ escape name +:+ "-" +:+
           strftime "%Y%m%d-%H%M%S" now) +:+ ".warc.gz").
Proof.
  intros Hp. unfold normal.
  assert (∀ s, "w"%char ∉ chars s → 
    (warc_prefix +:+ "-" +:+ escape name +:+ "-" +:+
           strftime "%Y%m%d-%H%M%S" now) +:+ ".warc.gz" ≠ s) as Hw.
  { intros s Hs <-. apply Hs. rewrite chars_app. apply elem_of_app. right.
    compute_done. }
  split_and!; [| apply Hw; compute_done..].
  rewrite !chars_app, !not_elem_of_app.
  split_and!; [done| |apply escape_no_slash| |apply stamp_no_slash|];
    compute_done.
Qed.

(** ** The stager *)

Lemma start_app_l (cwd : path) (a x : string) :
  a ≠ "" → start cwd (a +:+ x) = start cwd a.
Proof. by destruct a. Qed.

Lemma subtree_single (m : fs) (d p : path) (n : node) :
  below d p → subtree m d = ∅ → subtree (<[p := n]> m) d = {[p := n]}.
Proof.
  intros Hp He. unfold subtree in *.
  rewrite map_filter_insert_True by done. by rewrite He.
Qed.

Lemma entries_subtree (m : fs) (d : path) (f : string) (n : node) :
  subtree m d = {[d ++ [f] := n]} → entries m d = {[d ++ [f] := n]}.
Proof.
  intros Hs. apply map_eq. intros k. unfold entries.
  destruct (decide (k = d ++ [f])) as [->|Hne].
  - rewrite lookup_singleton_eq. apply map_lookup_filter_Some_2.
    + assert (subtree m d !! (d ++ [f]) = Some n) as H
        by (by rewrite Hs, lookup_singleton_eq).
      by apply map_lookup_filter_Some_1_1 in H.
    + cbn. split; [by apply prefix_app_r|]. rewrite length_app. cbn. lia.
  - rewrite lookup_singleton_ne by done.
    apply map_lookup_filter_None_2.
    destruct (m !! k) eqn:E; [right|by left]. intros x [= <-] [Hp Hl]. cbn in *.
    assert (subtree m d !! k = Some n0) as H.
    { apply map_lookup_filter_Some_2; [done|]. split; [done|].
      cbn. intros ->. lia. }
    by rewrite Hs, lookup_singleton_ne in H.
Qed.

(** C5. After a successful run of the stager (with a prefix that has no
    slash, as the pipeline's [examplecity]), [item_dir] is
    [data_dir/escaped_item_name], it names a directory, and that
    directory holds exactly one entry, the empty file
    [warc_file_base.warc.gz], with nothing else anywhere below it:
    whatever a directory at that path held before is gone. *)
Theorem stager_leaves_one_entry (warc_prefix : string) (cwd : path)
    (now : struct_time) (w : world) :
  fs_wf (w_fs w) →
  "/"%char ∉ chars warc_prefix →
  let out := PrepareDirectories_process warc_prefix cwd now w in
  out.2 = Ok tt →
  ∃ (name D base : string) (d : path),
    w_item w !! "item_name" = Some name ∧
    w_item w !! "data_dir" = Some D ∧
    w_item out.1 !! "escaped_item_name" = Some (escape name) ∧
    w_item out.1 !! "item_dir" = Some (D +:+ "/" +:+ escape name) ∧
    w_item out.1 !! "warc_file_base" = Some base ∧
    resolve (w_fs out.1) cwd (D +:+ "/" +:+ escape name) = Ok d ∧
    w_fs out.1 !! d = Some Dir ∧
    entries (w_fs out.1) d = {[d ++ [base +:+ ".warc.gz"] := File ""]} ∧
    subtree (w_fs out.1) d = {[d ++ [base +:+ ".warc.gz"] := File ""]} ∧
    fs_wf (w_fs out.1).
Proof.
  intros Hwf Hp out Hok. subst out.
  destruct (w_item w !! "item_name") as [name|] eqn:Hn.
  2:{ revert Hok. unfold PrepareDirectories_process, bind, item_get, getitem.
      by rewrite Hn. }
  destruct (w_item w !! "data_dir") as [D|] eqn:Hd;
    [|by rewrite (stager_no_data_dir _ _ _ _ name) in Hok].
  pose proof (stager_escaped warc_prefix cwd now w name Hn) as Hesc.
  revert Hok Hesc. rewrite (stager_steps _ _ _ _ name D) by done.
  set (dirname := D +:+ "/" +:+ escape name).
  set (base := warc_prefix +:+ "-" +:+ escape name +:+ "-" +:+
               strftime "%Y%m%d-%H%M%S" now).
  assert (normal (base +:+ ".warc.gz")) as Hf by (by apply warc_gz_normal).
  assert (dirname ≠ "") as Hne by apply app_slash_nonempty.
  assert (∃ m1, fs_wf m1 ∧
    (if os_path_isdir (w_fs w) cwd dirname
     then shutil_rmtree cwd dirname (w_fs w) else (w_fs w, Ok tt)) = (m1, Ok tt)
    ∨ ∃ m1 x, (if os_path_isdir (w_fs w) cwd dirname
     then shutil_rmtree cwd dirname (w_fs w) else (w_fs w, Ok tt)) = (m1, Raise x))
    as [m1 [[Hwf1 ->]|(m1' & x & ->)]]; [| |done].
  { destruct (os_path_isdir _ _ _).
    - destruct (shutil_rmtree _ _ _) as [m1 [[]|x]] eqn:E.
      + exists m1. left. split; [|done]. by eapply rmtree_wf.
      + exists m1. right. by exists m1, x.
    - exists (w_fs w). by left. }
  destruct (os_makedirs cwd dirname m1) as [m2 [[]|x]] eqn:Hmk; [|done].
  unfold os_makedirs in Hmk.
  destruct dirname as [|c0 dn] eqn:Edn; [done|]. rewrite <-Edn in *.
  apply makedirs_walk_ok in Hmk as (d & Hd2 & Hdir & Hsub & Hwf2 & _);
    [|done..].
  assert (resolve m2 cwd (dirname +:+ "/" +:+ base +:+ ".warc.gz")
          = Ok (d ++ [base +:+ ".warc.gz"])) as Hres.
  { rewrite (resolve_entry _ _ _ _ d); [by rewrite Hdir|done|].
    by rewrite start_app_l. }
  assert (m2 !! (d ++ [base +:+ ".warc.gz"]) = None) as Hnone.
  { apply subtree_empty with (p := d ++ [base +:+ ".warc.gz"]) in Hsub; [done|].
    apply below_app. by eexists [_]. }
  unfold open_w_close. rewrite Hres, Hnone. cbn [fst snd w_fs w_item].
  intros _ Hesc. exists name, D, base, d.
  assert (subtree (<[d ++ [base +:+ ".warc.gz"] := File ""]> m2) d
          = {[d ++ [base +:+ ".warc.gz"] := File ""]}) as Hsub3.
  { apply subtree_single; [|done]. apply below_app. by eexists [_]. }
  split_and!; [done..| by lookup_ins | by lookup_ins | | | | done |].
  - rewrite resolve_walk by done. eapply walk_mono; [|done].
    intros p Hp'. rewrite lookup_insert_ne; [done|]. intros <-.
    by rewrite Hnone in Hp'.
  - rewrite lookup_insert_ne; [done|].
    intros H. apply (f_equal length) in H. rewrite length_app in H. cbn in H. lia.
  - by apply entries_subtree.
  - apply wf_insert; [done..|]. by rewrite Hnone.
Qed.

Lemma stager_leaves_one_entry_witness :
  let out := PrepareDirectories_process "examplecity" [] example_time
               stale_world in
  ∃ (name D base : string) (d : path),
    w_item stale_world !! "item_name" = Some name ∧
    w_item stale_world !! "data_dir" = Some D ∧
    w_item out.1 !! "escaped_item_name" = Some (escape name) ∧
    w_item out.1 !! "item_dir" = Some (D +:+ "/" +:+ escape name) ∧
    w_item out.1 !! "warc_file_base" = Some base ∧
    resolve (w_fs out.1) [] (D +:+ "/" +:+ escape name) = Ok d ∧
    w_fs out.1 !! d = Some Dir ∧
    entries (w_fs out.1) d = {[d ++ [base +:+ ".warc.gz"] := File ""]} ∧
    subtree (w_fs out.1) d = {[d ++ [base +:+ ".warc.gz"] := File ""]} ∧
    fs_wf (w_fs out.1).
Proof.
  apply (stager_leaves_one_entry "examplecity" [] example_time stale_world);
    first [ compute_done | vm_compute; reflexivity ].
Defined.

(** ** The finalizer *)

Lemma pct_format_warc (d : item) (a b : string) :
  d !! "item_dir" = Some a → d !! "warc_file_base" = Some b →
  pct_format "%(item_dir)s/%(warc_file_base)s.warc" d =
    Ok (a +:+ "/" +:+ b +:+ ".warc").
Proof.
  intros Ha Hb. unfold pct_format. cbn. unfold getitem.
  rewrite Ha. cbn. by rewrite Hb.
Qed.

Lemma pct_format_dst (d : item) (a b : string) :
  d !! "data_dir" = Some a → d !! "warc_file_base" = Some b →
  pct_format "%(data_dir)s/%(warc_file_base)s.warc.gz" d =
    Ok (a +:+ "/" +:+ b +:+ ".warc.gz").
Proof.
  intros Ha Hb. unfold pct_format. cbn. unfold getitem.
  rewrite Ha. cbn. by rewrite Hb.
Qed.

Lemma pct_format_item_dir (d : item) (a : string) :
  d !! "item_dir" = Some a → pct_format "%(item_dir)s" d = Ok a.
Proof.
  intros Ha. unfold pct_format. cbn. unfold getitem.
  rewrite Ha. cbn. by rewrite app_empty_r.
Qed.

Lemma os_rename_error (cwd : path) (src dst : string) (m m' : fs) (x : exn) :
  os_rename cwd src dst m = (m', Raise x) → m' = m.
Proof.
  unfold os_rename. intros H.
  repeat (case_match; simplify_eq/=; try done).
Qed.

Section Finalizer.
Variables (cwd : path) (w : world) (idir ddir base : string).
Hypothesis Hidir : w_item w !! "item_dir" = Some idir.
Hypothesis Hddir : w_item w !! "data_dir" = Some ddir.
Hypothesis Hbase : w_item w !! "warc_file_base" = Some base.

Lemma finalizer_steps :
  MoveFiles_process cwd w =
    if os_path_exists (w_fs w) cwd (idir +:+ "/" +:+ base +:+ ".warc")
    then (w, Raise (Exception "Please compile wget with zlib support!"))
    else
      let '(m1, r1) :=
        os_rename cwd (idir +:+ "/" +:+ base +:+ ".warc.gz")
          (ddir +:+ "/" +:+ base +:+ ".warc.gz") (w_fs w) in
      match r1 with
      | Raise x => ({| w_fs := m1; w_item := w_item w |}, Raise x)
      | Ok _ =>
          let '(m2, r2) := shutil_rmtree cwd idir m1 in
          ({| w_fs := m2; w_item := w_item w |}, r2)
      end.
Proof using Hidir Hddir Hbase.
  unfold MoveFiles_process, bind, item_format, exists_, on_fs, raise, ret.
  rewrite (pct_format_warc _ idir base) by done.
  destruct (os_path_exists _ _ _); [done|]. cbn [w_fs w_item].
  rewrite (pct_format_2 _ idir base), (pct_format_dst _ ddir base) by done.
  destruct (os_rename _ _ _ _) as [m1 [[]|x]]; [|done]. cbn [w_fs w_item].
  rewrite (pct_format_item_dir _ idir) by done. cbn [w_fs w_item].
  by destruct (shutil_rmtree _ _ _).
Qed.
End Finalizer.

Lemma rbind_ok {A B} (r : result A) (k : A → result B) (y : B) :
  rbind r k = Ok y → ∃ x, r = Ok x ∧ k x = Ok y.
Proof. destruct r as [x|]; [|done]. intros H. by exists x. Qed.

Lemma walk_entry (m : fs) (cur p : path) (c : string) :
  normal c → walk m cur [c] = Ok p → m !! cur = Some Dir ∧ p = cur ++ [c].
Proof.
  intros Hc. cbn. destruct (m !! cur) as [[]|]; [|done..].
  rewrite normal_enter by done. by intros [= <-].
Qed.

Lemma gz_normal (base : string) :
  "/"%char ∉ chars base → normal (base +:+ ".warc.gz").
Proof.
  intros Hb.
  assert (∀ s, "w"%char ∉ chars s → base +:+ ".warc.gz" ≠ s) as Hw.
  { intros s Hs <-. apply Hs. rewrite chars_app. apply elem_of_app. right.
    compute_done. }
  split_and!; [|apply Hw; compute_done..].
  rewrite chars_app, not_elem_of_app. split; [done|compute_done].
Qed.

Lemma split_slash_no_nil (s : string) : split_slash s ≠ [].
Proof. by destruct (split_slash_cons s) as (h & t & ->). Qed.

Lemma last_component_entry (a c : string) :
  normal c → last_component (a +:+ "/" +:+ c) = Some c.
Proof.
  intros Hc. unfold last_component.
  rewrite split_slash_app, (split_slash_plain c) by apply Hc.
  rewrite filter_app, filter_cons_True by apply Hc.
  rewrite filter_nil. apply last_snoc.
Qed.

Lemma snoc_prefix_snoc (d : path) (a b : string) :
  d ++ [a] `prefix_of` d ++ [b] → a = b.
Proof.
  intros H. apply prefix_app_inv in H. by apply prefix_cons_inv_1 in H.
Qed.

Section Move.
Variables (cwd : path) (w : world) (ddir base e c : string).
Let idir := ddir +:+ "/" +:+ e.
Let f := base +:+ ".warc.gz".
Hypothesis Hidir : w_item w !! "item_dir" = Some idir.
Hypothesis Hddir : w_item w !! "data_dir" = Some ddir.
Hypothesis Hbase : w_item w !! "warc_file_base" = Some base.
Hypothesis He : normal e.
Hypothesis Hb : "/"%char ∉ chars base.
Hypothesis Habsent :
  os_path_exists (w_fs w) cwd (idir +:+ "/" +:+ base +:+ ".warc") = false.
Hypothesis Hsrc : read_file (w_fs w) cwd (idir +:+ "/" +:+ f) = Ok c.
Hypothesis Hdst : os_path_isdir (w_fs w) cwd (ddir +:+ "/" +:+ f) = false.

Lemma finalizer_moves :
  ∃ (dd : path) (m2 : fs),
    walk (w_fs w) (start cwd idir) (split_slash ddir) = Ok dd ∧
    w_fs w !! (dd ++ [e]) = Some Dir ∧
    w_fs w !! (dd ++ [e; f]) = Some (File c) ∧
    MoveFiles_process cwd w = ({| w_fs := m2; w_item := w_item w |}, Ok tt) ∧
    m2 !! (dd ++ [f]) = Some (File c) ∧
    os_path_exists m2 cwd idir = false ∧
    (∀ p, dd ++ [e] `prefix_of` p → m2 !! p = None) ∧
    (∀ p, ¬ dd ++ [e] `prefix_of` p → p ≠ dd ++ [f] → m2 !! p = w_fs w !! p).
Proof using All.
  set (m := w_fs w) in *.
  assert (normal f) as Hf by (by apply gz_normal).
  assert (idir ≠ "") as Hne by apply app_slash_nonempty.
  (* where the three paths lead *)
  apply rbind_ok in Hsrc as (ps & Hps0 & Hc). pose proof Hps0 as Hps.
  rewrite resolve_walk in Hps by apply app_slash_nonempty.
  rewrite start_app_l in Hps by done.
  unfold idir in Hps at 2. rewrite !split_slash_app, !walk_app in Hps.
  rewrite (split_slash_plain e), (split_slash_plain f) in Hps
    by first [apply He|apply Hf].
  apply rbind_ok in Hps as (di & Hdi & Hps).
  apply rbind_ok in Hdi as (dd & Hdd & Hdi).
  apply walk_entry in Hdi as [Hdd_dir ->]; [|done].
  apply walk_entry in Hps as [Hdi_dir ->]; [|done].
  rewrite <-app_assoc in Hc. cbn [app] in Hc.
  destruct (m !! (dd ++ [e; f])) as [[|c']|] eqn:Hfile; simplify_eq/=.
  assert (resolve m cwd (ddir +:+ "/" +:+ f) = Ok (dd ++ [f])) as Hpd.
  { rewrite (resolve_entry _ _ _ _ dd); [by rewrite Hdd_dir|done|].
    by rewrite (start_app _ _ _ e). }
  assert (m !! (dd ++ [f]) ≠ Some Dir) as Hnd.
  { intros H. revert Hdst. unfold os_path_isdir. rewrite Hpd.
    by rewrite bool_decide_eq_true_2. }
  rewrite <-app_assoc in Hps0. cbn [app] in Hps0.
  (* the move *)
  set (m1 := <[dd ++ [f] := File c]> (delete (dd ++ [e; f]) m)).
  assert (os_rename cwd (idir +:+ "/" +:+ f) (ddir +:+ "/" +:+ f) m
          = (m1, Ok tt)) as Hmv.
  { unfold os_rename. rewrite Hps0, Hpd, Hfile.
    by destruct (m !! (dd ++ [f])) as [[]|]. }
  assert (∀ p, m !! p = Some Dir → m1 !! p = Some Dir) as Hkeep.
  { intros p Hp. unfold m1. rewrite lookup_insert_ne by (by intros <-).
    rewrite lookup_delete_ne; [done|]. intros <-. by rewrite Hfile in Hp. }
  (* the removal *)
  assert (resolve m1 cwd idir = Ok (dd ++ [e])) as Hrm.
  { unfold idir. rewrite (resolve_entry _ _ _ _ dd); [|done|].
    - by rewrite (Hkeep _ Hdd_dir).
    - eapply walk_mono; [apply Hkeep|done]. }
  set (m2 := delete (dd ++ [e])
               (filter (λ kv : path * node, ¬ below (dd ++ [e]) kv.1) m1)).
  assert (shutil_rmtree cwd idir m1 = (m2, Ok tt)) as Hrt.
  { unfold shutil_rmtree. rewrite Hrm, (Hkeep _ Hdi_dir).
    unfold rmdir_errno, idir. rewrite last_component_entry by done.
    destruct He as (_ & _ & ? & ?).
    rewrite !decide_False; [done| by destruct dd |done..]. }
  assert (∀ p, ¬ dd ++ [e] `prefix_of` p → m2 !! p = m1 !! p) as Hout.
  { intros p Hp. unfold m2. rewrite lookup_delete_ne by (by intros <-).
    destruct (m1 !! p) eqn:E.
    - apply map_lookup_filter_Some_2; [done|]. cbn. by intros [? _].
    - apply map_lookup_filter_None_2. by left. }
  assert (∀ p, dd ++ [e] `prefix_of` p → m2 !! p = None) as Hin.
  { intros p Hp. unfold m2. destruct (decide (p = dd ++ [e])) as [->|Hpe].
    - by rewrite lookup_delete_eq.
    - rewrite lookup_delete_ne by done. apply map_lookup_filter_None_2.
      right. intros x _ Hx. by apply Hx. }
  assert (¬ dd ++ [e] `prefix_of` dd ++ [f]) as Hef.
  { intros ->%snoc_prefix_snoc. by rewrite Hdi_dir in Hnd. }
  exists dd, m2. split_and!; [done..| | | |done|].
  - rewrite (finalizer_steps cwd w idir ddir base) by done.
    change (w_fs w) with m. rewrite Habsent.
    change (base +:+ ".warc.gz") with f. by rewrite Hmv, Hrt.
  - rewrite Hout by done. unfold m1. by rewrite lookup_insert_eq.
  - unfold os_path_exists.
    destruct (resolve m2 cwd idir) as [p|] eqn:Hp; [|done].
    rewrite resolve_walk in Hp, Hrm by done.
    assert (walk m1 (start cwd idir) (split_slash idir) = Ok p) as Hp1.
    { eapply walk_mono; [|done]. intros q Hq.
      destruct (decide (dd ++ [e] `prefix_of` q)) as [Hpre|Hpre].
      - by rewrite Hin in Hq.
      - by rewrite Hout in Hq. }
    rewrite Hrm in Hp1. injection Hp1 as <-.
    rewrite Hin by done. by rewrite bool_decide_eq_false_2 by (by intros []).
  - intros p Hp Hpf. rewrite Hout by done. unfold m1.
    rewrite lookup_insert_ne by done. rewrite lookup_delete_ne; [done|].
    intros <-. apply Hp. by exists [f]; rewrite <-app_assoc.
Qed.
End Move.

(** C4. When the uncompressed [item_dir/warc_file_base.warc] exists, the
    finalizer raises with the world exactly as it was: nothing is moved
    and nothing is removed. Only when it is absent does the finalizer
    move: if the move fails the world is again unchanged and [item_dir]
    stays; if [item_dir] is the entry [e] of [data_dir] and holds the
    compressed file, the file ends up in [data_dir] with its content,
    then [item_dir] and everything below it is gone, and the rest of the
    file system is as before. *)
Theorem finalizer_guard (cwd : path) (w : world) (idir ddir base : string) :
  w_item w !! "item_dir" = Some idir →
  w_item w !! "data_dir" = Some ddir →
  w_item w !! "warc_file_base" = Some base →
  let uncompressed := idir +:+ "/" +:+ base +:+ ".warc" in
  let src := idir +:+ "/" +:+ base +:+ ".warc.gz" in
  let dst := ddir +:+ "/" +:+ base +:+ ".warc.gz" in
  (os_path_exists (w_fs w) cwd uncompressed = true →
   MoveFiles_process cwd w
     = (w, Raise (Exception "Please compile wget with zlib support!"))) ∧
  (os_path_exists (w_fs w) cwd uncompressed = false →
   (∀ x, (os_rename cwd src dst (w_fs w)).2 = Raise x →
      MoveFiles_process cwd w = (w, Raise x)) ∧
   (∀ e c, idir = ddir +:+ "/" +:+ e → normal e → "/"%char ∉ chars base →
      read_file (w_fs w) cwd src = Ok c →
      os_path_isdir (w_fs w) cwd dst = false →
      ∃ (dd : path) (m2 : fs),
        walk (w_fs w) (start cwd idir) (split_slash ddir) = Ok dd ∧
        w_fs w !! (dd ++ [e]) = Some Dir ∧
        w_fs w !! (dd ++ [e; base +:+ ".warc.gz"]) = Some (File c) ∧
        MoveFiles_process cwd w
          = ({| w_fs := m2; w_item := w_item w |}, Ok tt) ∧
        m2 !! (dd ++ [base +:+ ".warc.gz"]) = Some (File c) ∧
        os_path_exists m2 cwd idir = false ∧
        (∀ p, dd ++ [e] `prefix_of` p → m2 !! p = None) ∧
        (∀ p, ¬ dd ++ [e] `prefix_of` p → p ≠ dd ++ [base +:+ ".warc.gz"] →
           m2 !! p = w_fs w !! p))).
Proof.
  intros Hi Hd Hb uncompressed src dst. split.
  - intros Hex. rewrite (finalizer_steps cwd w idir ddir base) by done.
    fold uncompressed. by rewrite Hex.
  - intros Hex. split.
    + intros x Hx. rewrite (finalizer_steps cwd w idir ddir base) by done.
      fold uncompressed src dst. rewrite Hex.
      destruct (os_rename cwd src dst (w_fs w)) as [m1 r1] eqn:Hmv.
      cbn in Hx. subst r1. apply os_rename_error in Hmv as ->.
      by destruct w.
    + intros e c -> He Hbase Hsrc Hdst.
      by apply (finalizer_moves cwd w ddir base e c).
Qed.

Lemma finalizer_guard_witness :
  ∃ (dd : path) (m2 : fs),
    walk (w_fs captured_world) [] (split_slash "/tmp/out") = Ok dd ∧
    w_fs captured_world !! (dd ++ ["smaug.fart.website_8080"]) = Some Dir ∧
    w_fs captured_world !! (dd ++ ["smaug.fart.website_8080";
      "examplecity-smaug.fart.website_8080-20150321-090559" +:+ ".warc.gz"])
      = Some (File "WARC/1.0") ∧
    MoveFiles_process [] captured_world
      = ({| w_fs := m2; w_item := w_item captured_world |}, Ok tt) ∧
    m2 !! (dd ++ ["examplecity-smaug.fart.website_8080-20150321-090559"
                  +:+ ".warc.gz"]) = Some (File "WARC/1.0") ∧
    os_path_exists m2 [] "/tmp/out/smaug.fart.website_8080" = false ∧
    (∀ p, dd ++ ["smaug.fart.website_8080"] `prefix_of` p → m2 !! p = None) ∧
    (∀ p, ¬ dd ++ ["smaug.fart.website_8080"] `prefix_of` p →
       p ≠ dd ++ ["examplecity-smaug.fart.website_8080-20150321-090559"
                  +:+ ".warc.gz"] →
       m2 !! p = w_fs captured_world !! p).
Proof.
  apply (proj2 (proj2 (finalizer_guard [] captured_world
           "/tmp/out/smaug.fart.website_8080" "/tmp/out"
           "examplecity-smaug.fart.website_8080-20150321-090559"
           ltac:(vm_compute; reflexivity) ltac:(vm_compute; reflexivity)
           ltac:(vm_compute; reflexivity))
         ltac:(vm_compute; reflexivity))
       "smaug.fart.website_8080" "WARC/1.0");
    first [ compute_done | vm_compute; reflexivity ].
Defined.

(** * Further properties *)

(** ** More on CheckIP *)

Lemma size_list_to_set_le (l : list string) :
  size (list_to_set l : gset string) ≤ length l.
Proof.
  induction l as [|a l IH]; [by rewrite list_to_set_nil, size_empty|].
  rewrite list_to_set_cons, size_union_alt, size_singleton. cbn.
  assert (size ((list_to_set l : gset string) ∖ {[a]}) ≤ size (list_to_set l : gset string)).
  { by apply subseteq_size, subseteq_difference_l. }
  lia.
Qed.

Lemma size_list_to_set_NoDup (l : list string) :
  size (list_to_set l : gset string) = length l ↔ NoDup l.
Proof.
  split; [|apply size_list_to_set].
  induction l as [|a l IH]; [constructor|]. intros H.
  rewrite list_to_set_cons in H. cbn in H.
  pose proof (size_list_to_set_le l) as Hle.
  destruct (decide (a ∈ l)) as [Hin|Hnin].
  - assert ({[a]} ∪ list_to_set l = (list_to_set l : gset string)) as Heq.
    { apply subseteq_union_1_L, singleton_subseteq_l. by apply elem_of_list_to_set. }
    rewrite Heq in H. lia.
  - rewrite size_union, size_singleton in H.
    + constructor; [done|]. apply IH. lia.
    + apply disjoint_singleton_l. by rewrite elem_of_list_to_set.
Qed.

Lemma six_list (a1 a2 a3 a4 a5 a6 : string) :
  six a1 a2 a3 a4 a5 a6 = list_to_set [a1; a2; a3; a4; a5; a6].
Proof.
  unfold six. cbn [list_to_set foldr].
  apply set_eq. intros x.
  rewrite !elem_of_union, !elem_of_singleton, elem_of_empty. tauto.
Qed.

(** X1. A check whose six names resolve passes exactly when the six
    addresses are pairwise distinct; otherwise it raises the firewall
    error, after logging the set of addresses and the message. *)
Theorem CheckIP_passes_iff_distinct (dns : string → result string) (c : Z)
    (s : list event) (a1 a2 a3 a4 a5 a6 : string) :
  (c ≤ 0)%Z →
  dns "twitter.com" = Ok a1 → dns "facebook.com" = Ok a2 →
  dns "youtube.com" = Ok a3 → dns "microsoft.com" = Ok a4 →
  dns "icanhas.cheezburger.com" = Ok a5 → dns "archiveteam.org" = Ok a6 →
  let out := CheckIP_process dns {| _counter := c; seen := s |} in
  (out.2 = Ok tt ↔ NoDup [a1; a2; a3; a4; a5; a6]) ∧
  (out.2 ≠ Ok tt →
   out.2 = Raise (Exception firewall_msg) ∧
   seen out.1 = s ++ log_output "Checking IP address."
                  :: (dns_query <$> hostnames)
                  ++ [log_ip_set (list_to_set [a1; a2; a3; a4; a5; a6]);
                      log_output firewall_msg]).
Proof.
  intros Hc H1 H2 H3 H4 H5 H6 out. subst out.
  rewrite (CheckIP_check dns c s a1 a2 a3 a4 a5 a6) by done.
  rewrite six_list. rewrite <-size_list_to_set_NoDup. cbn [length].
  destruct (decide (size _ ≠ 6)) as [Hne|Heq]; cbn [fst snd seen].
  - split; [by split|]. intros _. split; [done|].
    by rewrite <-app_assoc.
  - split; [|done]. split; [intros _|done].
    by destruct (decide (size (list_to_set [a1; a2; a3; a4; a5; a6] : gset string) = 6)).
Qed.

Lemma CheckIP_passes_iff_distinct_witness :
  (CheckIP_process example_dns CheckIP_init).2 = Ok tt ↔
  NoDup hostnames.
Proof.
  apply (proj1 (CheckIP_passes_iff_distinct example_dns 0 []
           "twitter.com" "facebook.com" "youtube.com" "microsoft.com"
           "icanhas.cheezburger.com" "archiveteam.org"
           ltac:(lia) eq_refl eq_refl eq_refl eq_refl eq_refl eq_refl)).
Defined.

(** X2. When a name does not resolve, the exception of the resolver
    leaves the task at once: the names after it are not queried, nothing
    more is logged and the counter stays as it was. *)
Theorem CheckIP_resolver_error (dns : string → result string) (c : Z)
    (s : list event) (k : nat) (h : string) (x : exn) :
  (c ≤ 0)%Z →
  hostnames !! k = Some h →
  dns h = Raise x →
  Forall (λ h', is_ok (dns h') = true) (take k hostnames) →
  CheckIP_process dns {| _counter := c; seen := s |} =
    ({| _counter := c;
        seen := s ++ log_output "Checking IP address."
                  :: (dns_query <$> take (S k) hostnames) |},
     Raise x).
Proof.
  intros Hc Hk Hx Hall.
  unfold CheckIP_process, bind, get, ret, raise, gethostbyname, emit, lift,
    set_counter, modify, bind.
  cbn [_counter seen]. rewrite decide_True by done.
  unfold hostnames in *.
  do 6 (destruct k as [|k];
    [ cbn in Hk, Hall; injection Hk as <-;
      repeat match goal with
             | H : Forall _ (_ :: _) |- _ =>
                 let E := fresh in
                 apply Forall_cons in H as [E H];
                 match type of E with
                 | is_ok (dns ?h') = true =>
                     destruct (dns h'); [clear E|discriminate E]
                 end
             end;
      rewrite Hx; cbn [_counter seen]; by rewrite <-?app_assoc
    | ]).
  done.
Qed.

Lemma CheckIP_resolver_error_witness :
  CheckIP_process flaky_dns CheckIP_init =
    ({| _counter := 0;
        seen := [] ++ log_output "Checking IP address."
                  :: (dns_query <$> take 3 hostnames) |},
     Raise (gaierror "youtube.com")).
Proof.
  apply (CheckIP_resolver_error flaky_dns 0 [] 2 "youtube.com");
    first [ lia | reflexivity | compute_done ].
Defined.

(** X3. In a run, an invocation that raises (the firewall error or an
    error of the resolver) was a check, and the invocation after it
    checks again: a failure does not start the interval. *)
Theorem CheckIP_rechecks_after_failure (dnss : list (string → result string))
    (i : nat) (inv inv' : list event * result unit) :
  CheckIP_run dnss CheckIP_init !! i = Some inv →
  inv.2 ≠ Ok tt →
  CheckIP_run dnss CheckIP_init !! S i = Some inv' →
  checked inv = true ∧ checked inv' = true.
Proof.
  intros Hi Hfail Hi'.
  destruct (CheckIP_run_at dnss CheckIP_init i inv)
    as (dns & c & s' & Hc & Hp & Hs & Hd); [done..|].
  pose proof (CheckIP_step dns c) as Hstep.
  pose proof (CheckIP_counter dns c Hc) as Hcnt.
  rewrite Hp in Hstep, Hcnt. rewrite Hs in Hstep.
  destruct inv as [es r]. cbn [fst snd] in *.
  destruct Hstep as [(H0 & Hch & _)|(_ & _ & -> & _)]; [|done].
  split; [done|].
  destruct Hcnt as [_ Hsame]. specialize (Hsame Hfail).
  assert (CheckIP_run (drop (S i) dnss) s' !! 0 = Some inv') as H'.
  { rewrite <-Hd, lookup_drop. by rewrite Nat.add_0_r. }
  destruct (CheckIP_run_skips (drop (S i) dnss) s' 0 inv') as [_ H2];
    [lia|done|].
  apply H2. lia.
Qed.

Lemma CheckIP_rechecks_after_failure_witness :
  let run := CheckIP_run [collapsing_dns; example_dns; example_dns]
               CheckIP_init in
  checked (default ([], Ok tt) (run !! 0)) = true ∧
  checked (default ([], Ok tt) (run !! 1)) = true.
Proof.
  apply (CheckIP_rechecks_after_failure
           [collapsing_dns; example_dns; example_dns] 0 _ _
           ltac:(vm_compute; reflexivity)).
  - vm_compute. discriminate.
  - vm_compute. reflexivity.
Defined.

(** ** More on sanitization *)

Lemma canon_canon (c : ascii) : canon (canon c) = canon c.
Proof.
  unfold canon, subst_char.
  destruct (Ascii.eqb_spec c ":") as [->|]; [done|].
  destruct (Ascii.eqb_spec c "/") as [->|]; [done|].
  destruct (Ascii.eqb_spec c ":"); [done|].
  by destruct (Ascii.eqb_spec c "/").
Qed.

Lemma length_chars (s : string) : length (chars s) = String.length s.
Proof. induction s as [|c s IH]; [done|]. cbn. by rewrite <-IH. Qed.

Lemma escape_no_colon (name : string) : ":"%char ∉ chars (escape name).
Proof.
  rewrite chars_escape. intros (c & Hc & _)%list_elem_of_fmap.
  by destruct (canon_clean c).
Qed.

(** X4. Sanitizing twice is sanitizing once, sanitizing keeps the
    length of the name, and the names it leaves as they are are those
    without '/' and ':'. *)
Theorem escape_idempotent (name : string) :
  escape (escape name) = escape name ∧
  String.length (escape name) = String.length name ∧
  (escape name = name ↔ ("/"%char ∉ chars name) ∧ (":"%char ∉ chars name)).
Proof.
  split_and!.
  - apply chars_inj. rewrite !chars_escape, <-list_fmap_compose.
    apply list_fmap_ext. intros _ c _. apply canon_canon.
  - by rewrite <-!length_chars, chars_escape, length_fmap.
  - split.
    + intros <-. split; [apply escape_no_slash|apply escape_no_colon].
    + intros [? ?]. by apply escape_clean.
Qed.

(** ** More on the stager *)

(** X5. Without [item_name] the stager raises [KeyError] with the world
    as it was; with [item_name] but without [data_dir] it raises
    [KeyError] after storing [escaped_item_name], the file system
    untouched. *)
Theorem stager_missing_key (warc_prefix : string) (cwd : path)
    (now : struct_time) (w : world) :
  let out := PrepareDirectories_process warc_prefix cwd now w in
  (w_item w !! "item_name" = None →
   out = (w, Raise (KeyError "item_name"))) ∧
  (∀ name, w_item w !! "item_name" = Some name →
   w_item w !! "data_dir" = None →
   out = ({| w_fs := w_fs w;
             w_item := <["escaped_item_name" := escape name]> (w_item w) |},
          Raise (KeyError "data_dir"))).
Proof.
  split.
  - intros Hn. unfold PrepareDirectories_process, bind, item_get, getitem.
    by rewrite Hn.
  - intros name Hn Hd. by apply stager_no_data_dir.
Qed.

Lemma stager_missing_key_witness :
  PrepareDirectories_process "examplecity" [] example_time keyless_world
    = (keyless_world, Raise (KeyError "item_name")).
Proof.
  apply (proj1 (stager_missing_key "examplecity" [] example_time
                  keyless_world)).
  reflexivity.
Defined.

(** X6. Whatever its outcome, the stager writes no key of the item but
    [escaped_item_name], [item_dir] and [warc_file_base]: every other
    key keeps its value, or stays absent. *)
Theorem stager_additive (warc_prefix : string) (cwd : path)
    (now : struct_time) (w : world) (k : string) :
  k ≠ "escaped_item_name" → k ≠ "item_dir" → k ≠ "warc_file_base" →
  w_item (PrepareDirectories_process warc_prefix cwd now w).1 !! k
    = w_item w !! k.
Proof.
  intros H1 H2 H3.
  destruct (w_item w !! "item_name") as [name|] eqn:Hn.
  2:{ unfold PrepareDirectories_process, bind, item_get, getitem.
      by rewrite Hn. }
  destruct (w_item w !! "data_dir") as [D|] eqn:Hd.
  2:{ rewrite (stager_no_data_dir _ _ _ _ name) by done. cbn.
      by rewrite lookup_insert_ne. }
  rewrite (stager_steps _ _ _ _ name D) by done.
  destruct (if os_path_isdir _ _ _ then _ else _) as [m1 [[]|x]];
    [|by cbn; rewrite lookup_insert_ne].
  destruct (os_makedirs _ _ m1) as [m2 [[]|x]];
    [|by cbn; rewrite lookup_insert_ne].
  destruct (open_w_close _ _ m2) as [m3 r3]. cbn.
  by rewrite !lookup_insert_ne.
Qed.

Lemma stager_additive_witness :
  w_item (PrepareDirectories_process "examplecity" [] example_time
            stale_world).1 !! "item_name"
    = w_item stale_world !! "item_name".
Proof.
  apply (stager_additive "examplecity" [] example_time stale_world
           "item_name"); compute_done.
Defined.

(** [os.makedirs] only adds. *)
Lemma makedirs_walk_mono (cs : list string) :
  ∀ (m m' : fs) (cur : path) (fresh : bool) (r : result unit),
  makedirs_walk m cur fresh cs = (m', r) →
  ∀ p n, m !! p = Some n → m' !! p = Some n.
Proof.
  induction cs as [|c cs IH]; intros m m' cur fresh r; cbn.
  { by intros [= <- _]. }
  destruct (m !! cur) as [[]|]; [|by intros [= <- _]..].
  destruct (is_dot c); [apply IH|].
  destruct (decide (c = "..")); [apply IH|].
  destruct (m !! (cur ++ [c])) eqn:Hnew; [apply IH|].
  intros H p x Hp. eapply IH; [done|].
  rewrite lookup_insert_ne; [done|]. intros <-. by rewrite Hnew in Hp.
Qed.

Lemma makedirs_mono (cwd : path) (s : string) (m m' : fs) (r : result unit) :
  os_makedirs cwd s m = (m', r) →
  ∀ p n, m !! p = Some n → m' !! p = Some n.
Proof.
  unfold os_makedirs. destruct s; [by intros [= <- _]|].
  apply makedirs_walk_mono.
Qed.

(** [shutil.rmtree] touches nothing but the directory it is given and
    what is below it, whether it fails or not. *)
Lemma rmtree_outside (cwd : path) (s : string) (m m' : fs) (r : result unit) :
  shutil_rmtree cwd s m = (m', r) →
  ∀ p, (∀ d, resolve m cwd s = Ok d → ¬ d `prefix_of` p) → m' !! p = m !! p.
Proof.
  unfold shutil_rmtree. intros H p Hp.
  destruct (resolve m cwd s) as [d|]; [|by injection H as <- _].
  specialize (Hp d eq_refl).
  destruct (m !! d) as [[]|]; [|by injection H as <- _..].
  assert (filter (λ kv : path * node, ¬ below d kv.1) m !! p = m !! p) as Hf.
  { destruct (m !! p) eqn:E.
    - apply map_lookup_filter_Some_2; [done|]. cbn. by intros [? _].
    - apply map_lookup_filter_None_2. by left. }
  destruct (rmdir_errno s d); injection H as <- _; [done|].
  rewrite lookup_delete_ne; [done|]. by intros ->.
Qed.

Lemma base_no_slash (warc_prefix name : string) (now : struct_time) :
  "/"%char ∉ chars warc_prefix →
  "/"%char ∉ chars (warc_prefix +:+ "-" +:+ escape name +:+ "-" +:+
                    strftime "%Y%m%d-%H%M%S" now).
Proof.
  intros Hp. rewrite !chars_app, !not_elem_of_app.
  split_and!; [done| |apply escape_no_slash| |apply stamp_no_slash];
    compute_done.
Qed.

(** What a successful run of the stager does to the file system: the old
    directory goes, if there is one, [os.makedirs] makes the new one,
    and the empty archive is put in it. *)
Lemma stager_success (warc_prefix : string) (cwd : path) (now : struct_time)
    (w : world) (name D : string) :
  fs_wf (w_fs w) →
  "/"%char ∉ chars warc_prefix →
  w_item w !! "item_name" = Some name →
  w_item w !! "data_dir" = Some D →
  (PrepareDirectories_process warc_prefix cwd now w).2 = Ok tt →
  let dirname := D +:+ "/" +:+ escape name in
  let base := warc_prefix +:+ "-" +:+ escape name +:+ "-" +:+
              strftime "%Y%m%d-%H%M%S" now in
  ∃ (m1 m2 : fs) (d : path),
    (if os_path_isdir (w_fs w) cwd dirname
     then shutil_rmtree cwd dirname (w_fs w) else (w_fs w, Ok tt))
      = (m1, Ok tt) ∧
    os_makedirs cwd dirname m1 = (m2, Ok tt) ∧
    walk m2 (start cwd dirname) (split_slash dirname) = Ok d ∧
    m2 !! d = Some Dir ∧ subtree m2 d = ∅ ∧ fs_wf m2 ∧
    PrepareDirectories_process warc_prefix cwd now w =
      ({| w_fs := <[d ++ [base +:+ ".warc.gz"] := File ""]> m2;
          w_item := <["warc_file_base" := base]>
                      (<["item_dir" := dirname]>
                        (<["escaped_item_name" := escape name]> (w_item w))) |},
       Ok tt).
Proof.
  intros Hwf Hp Hn Hd Hok dirname base. revert Hok.
  rewrite (stager_steps _ _ _ _ name D) by done.
  fold dirname. fold base.
  assert (normal (base +:+ ".warc.gz")) as Hf by (by apply warc_gz_normal).
  assert (dirname ≠ "") as Hne by apply app_slash_nonempty.
  destruct (if os_path_isdir _ _ _ then _ else _) as [m1 [[]|x]] eqn:Hrm;
    [|done].
  assert (fs_wf m1) as Hwf1.
  { destruct (os_path_isdir _ _ _); [by eapply rmtree_wf|by injection Hrm as <-]. }
  destruct (os_makedirs cwd dirname m1) as [m2 [[]|x]] eqn:Hmk; [|done].
  pose proof Hmk as Hmk'. unfold os_makedirs in Hmk'.
  destruct dirname as [|c0 dn] eqn:Edn; [done|]. rewrite <-Edn in *.
  apply makedirs_walk_ok in Hmk' as (d & Hd2 & Hdir & Hsub & Hwf2 & _);
    [|done..].
  assert (resolve m2 cwd (dirname +:+ "/" +:+ base +:+ ".warc.gz")
          = Ok (d ++ [base +:+ ".warc.gz"])) as Hres.
  { rewrite (resolve_entry _ _ _ _ d); [by rewrite Hdir|done|].
    by rewrite start_app_l. }
  assert (m2 !! (d ++ [base +:+ ".warc.gz"]) = None) as Hnone.
  { apply subtree_empty with (p := d ++ [base +:+ ".warc.gz"]) in Hsub; [done|].
    apply below_app. by eexists [_]. }
  unfold open_w_close. rewrite Hres, Hnone. intros _.
  by exists m1, m2, d.
Qed.

(** X7. Whatever its outcome, the stager removes and changes nothing
    outside the directory that [data_dir/escaped_item_name] named
    before the run: a node that is not at or below it is still there,
    as it was. *)
Theorem stager_outside_untouched (warc_prefix : string) (cwd : path)
    (now : struct_time) (w : world) (p : path) (n : node) :
  fs_wf (w_fs w) →
  "/"%char ∉ chars warc_prefix →
  w_fs w !! p = Some n →
  (∀ name D d, w_item w !! "item_name" = Some name →
     w_item w !! "data_dir" = Some D →
     resolve (w_fs w) cwd (D +:+ "/" +:+ escape name) = Ok d →
     ¬ d `prefix_of` p) →
  w_fs (PrepareDirectories_process warc_prefix cwd now w).1 !! p = Some n.
Proof.
  intros Hwf Hpre Hp Hout.
  destruct (w_item w !! "item_name") as [name|] eqn:Hn.
  2:{ unfold PrepareDirectories_process, bind, item_get, getitem.
      by rewrite Hn. }
  destruct (w_item w !! "data_dir") as [D|] eqn:Hd;
    [|by rewrite (stager_no_data_dir _ _ _ _ name)].
  specialize (Hout name D).
  set (dirname := D +:+ "/" +:+ escape name) in *.
  assert (∀ m1 r, (if os_path_isdir (w_fs w) cwd dirname
            then shutil_rmtree cwd dirname (w_fs w) else (w_fs w, Ok tt))
          = (m1, r) → m1 !! p = Some n) as Hm1.
  { intros m1 r H. destruct (os_path_isdir _ _ _).
    - erewrite rmtree_outside; [done..|]. intros d. by apply Hout.
    - by injection H as <- _. }
  destruct (PrepareDirectories_process warc_prefix cwd now w).2
    as [[]|x] eqn:Hok.
  - destruct (stager_success warc_prefix cwd now w name D)
      as (m1 & m2 & d & Hrm & Hmk & Hd2 & Hdir & Hsub & Hwf2 & ->); [done..|].
    cbn [fst w_fs].
    assert (m2 !! p = Some n) as Hp2.
    { eapply makedirs_mono; [done|]. by eapply Hm1. }
    rewrite lookup_insert_ne; [done|]. intros <-.
    apply subtree_empty with (p := d ++ [(warc_prefix +:+ "-" +:+ escape name
      +:+ "-" +:+ strftime "%Y%m%d-%H%M%S" now) +:+ ".warc.gz"]) in Hsub.
    + by rewrite Hsub in Hp2.
    + apply below_app. by eexists [_].
  - revert Hok. rewrite (stager_steps _ _ _ _ name D) by done.
    fold dirname.
    destruct (if os_path_isdir _ _ _ then _ else _) as [m1 [[]|x1]] eqn:Hrm;
      [|intros _; by eapply Hm1].
    destruct (os_makedirs cwd dirname m1) as [m2 [[]|x2]] eqn:Hmk.
    + unfold open_w_close.
      destruct (resolve m2 _ _) as [t|]; [|intros _; cbn].
      * destruct (m2 !! t) as [[]|]; [|done..]. intros _. cbn.
        eapply makedirs_mono; [done|]. by eapply Hm1.
      * eapply makedirs_mono; [done|]. by eapply Hm1.
    + intros _. cbn. eapply makedirs_mono; [done|]. by eapply Hm1.
Qed.

Lemma stager_outside_untouched_witness :
  w_fs (PrepareDirectories_process "examplecity" [] example_time
          stale_world).1 !! ["tmp"; "out"] = Some Dir.
Proof.
  apply (stager_outside_untouched "examplecity" [] example_time stale_world
           ["tmp"; "out"] Dir); [compute_done..|].
  intros name D d Hn Hd. vm_compute in Hn, Hd.
  injection Hn as <-. injection Hd as <-.
  intros Hres. vm_compute in Hres. injection Hres as <-. compute_done.
Defined.

(** [os.makedirs] on a path that is there already makes nothing. *)
Lemma makedirs_walk_exists (cs : list string) : ∀ (m : fs) (cur p : path),
  walk m cur cs = Ok p → is_Some (m !! p) →
  makedirs_walk m cur false cs = (m, Raise (OSError EEXIST)).
Proof.
  induction cs as [|c cs IH]; intros m cur p; [done|].
  cbn. destruct (m !! cur) as [[]|] eqn:Hcur; [|done..].
  unfold enter. destruct (is_dot c); [apply IH|].
  destruct (decide (c = "..")); [apply IH|].
  intros Hw Hp.
  assert (is_Some (m !! (cur ++ [c]))) as [x Hx].
  { destruct cs as [|c' cs]; [by injection Hw as ->|].
    cbn in Hw. by destruct (m !! (cur ++ [c])) as [[]|]. }
  rewrite Hx. by eapply IH.
Qed.

(** X8. When [data_dir/escaped_item_name] is a regular file, the stager
    raises [FileExistsError] from [os.makedirs] and leaves the file
    system as it was: the file is not removed. *)
Theorem stager_path_taken (warc_prefix : string) (cwd : path)
    (now : struct_time) (w : world) (name D c : string) (p : path) :
  w_item w !! "item_name" = Some name →
  w_item w !! "data_dir" = Some D →
  resolve (w_fs w) cwd (D +:+ "/" +:+ escape name) = Ok p →
  w_fs w !! p = Some (File c) →
  PrepareDirectories_process warc_prefix cwd now w =
    ({| w_fs := w_fs w;
        w_item := <["escaped_item_name" := escape name]> (w_item w) |},
     Raise (OSError EEXIST)).
Proof.
  intros Hn Hd Hres Hp. rewrite (stager_steps _ _ _ _ name D) by done.
  unfold os_path_isdir. rewrite Hres, Hp.
  rewrite bool_decide_eq_false_2 by done.
  unfold os_makedirs.
  rewrite resolve_walk in Hres by apply app_slash_nonempty.
  destruct (D +:+ "/" +:+ escape name) eqn:E;
    [by apply app_slash_nonempty in E|].
  by rewrite (makedirs_walk_exists _ _ _ p).
Qed.

Lemma stager_path_taken_witness :
  PrepareDirectories_process "examplecity" [] example_time blocked_world =
    ({| w_fs := w_fs blocked_world;
        w_item := <["escaped_item_name" := escape "smaug.fart.website:8080"]>
                    (w_item blocked_world) |},
     Raise (OSError EEXIST)).
Proof.
  apply (stager_path_taken "examplecity" [] example_time blocked_world
           "smaug.fart.website:8080" "/tmp/out" "x"
           ["tmp"; "out"; "smaug.fart.website_8080"]);
    vm_compute; reflexivity.
Defined.

(** ** More on the finalizer *)

Lemma warc_normal (base : string) :
  "/"%char ∉ chars base → normal (base +:+ ".warc").
Proof.
  intros Hb.
  assert (∀ s, "w"%char ∉ chars s → base +:+ ".warc" ≠ s) as Hw.
  { intros s Hs <-. apply Hs. rewrite chars_app. apply elem_of_app. right.
    compute_done. }
  split_and!; [|apply Hw; compute_done..].
  rewrite chars_app, not_elem_of_app. split; [done|compute_done].
Qed.

(** X9. Whatever its outcome, the finalizer leaves the item as it
    was. *)
Theorem finalizer_item_unchanged (cwd : path) (w : world) :
  w_item (MoveFiles_process cwd w).1 = w_item w.
Proof.
  unfold MoveFiles_process, bind, item_format, exists_, on_fs, raise, ret.
  destruct (pct_format "%(item_dir)s/%(warc_file_base)s.warc" _); [|done].
  destruct (os_path_exists _ _ _); [done|]. cbn [w_fs w_item].
  destruct (pct_format "%(item_dir)s/%(warc_file_base)s.warc.gz" _); [|done].
  destruct (pct_format "%(data_dir)s/%(warc_file_base)s.warc.gz" _); [|done].
  destruct (os_rename _ _ _ _) as [m1 [[]|x]]; [|done]. cbn [w_fs w_item].
  destruct (pct_format "%(item_dir)s" _); [|done].
  by destruct (shutil_rmtree _ _ _).
Qed.

Lemma pct_format_missing_item_dir (d : item) :
  d !! "item_dir" = None →
  pct_format "%(item_dir)s/%(warc_file_base)s.warc" d
    = Raise (KeyError "item_dir").
Proof. intros H. unfold pct_format. cbn. unfold getitem. by rewrite H. Qed.

(** X10. A missing [item_dir] or [warc_file_base] stops the finalizer
    with [KeyError] before it looks at the file system; a missing
    [data_dir] stops it after the check for the uncompressed file and
    before the move. In each case the world is as it was. *)
Theorem finalizer_missing_key (cwd : path) (w : world) :
  (w_item w !! "item_dir" = None →
   MoveFiles_process cwd w = (w, Raise (KeyError "item_dir"))) ∧
  (is_Some (w_item w !! "item_dir") →
   w_item w !! "warc_file_base" = None →
   MoveFiles_process cwd w = (w, Raise (KeyError "warc_file_base"))) ∧
  (∀ idir base,
   w_item w !! "item_dir" = Some idir →
   w_item w !! "warc_file_base" = Some base →
   w_item w !! "data_dir" = None →
   os_path_exists (w_fs w) cwd (idir +:+ "/" +:+ base +:+ ".warc") = false →
   MoveFiles_process cwd w = (w, Raise (KeyError "data_dir"))).
Proof.
  split_and!.
  - intros H. unfold MoveFiles_process, bind, item_format.
    by rewrite pct_format_missing_item_dir.
  - intros [idir Hi] Hb. unfold MoveFiles_process, bind, item_format.
    unfold pct_format. cbn. unfold getitem. rewrite Hi. cbn. by rewrite Hb.
  - intros idir base Hi Hb Hd Hex.
    unfold MoveFiles_process, bind, item_format, exists_, raise, ret.
    rewrite (pct_format_warc _ idir base) by done. rewrite Hex.
    rewrite (pct_format_2 _ idir base) by done.
    unfold pct_format. cbn. unfold getitem. by rewrite Hd.
Qed.

Lemma finalizer_missing_key_witness :
  MoveFiles_process [] example_world
    = (example_world, Raise (KeyError "item_dir")).
Proof.
  apply (proj1 (finalizer_missing_key [] example_world)). reflexivity.
Defined.

(** X11. The stager and then the finalizer, for an item whose sanitized
    name is an ordinary entry name and with nothing written in
    between: the finalizer succeeds, the (empty) archive
    [warc_file_base.warc.gz] is in [data_dir], and the working directory
    is gone with everything below it. *)
Theorem stage_then_finalize (warc_prefix : string) (cwd : path)
    (now : struct_time) (w : world) (name D : string) :
  fs_wf (w_fs w) →
  "/"%char ∉ chars warc_prefix →
  w_item w !! "item_name" = Some name →
  w_item w !! "data_dir" = Some D →
  escape name ≠ "" → escape name ≠ "." → escape name ≠ ".." →
  let staged := PrepareDirectories_process warc_prefix cwd now w in
  let base := warc_prefix +:+ "-" +:+ escape name +:+ "-" +:+
              strftime "%Y%m%d-%H%M%S" now in
  staged.2 = Ok tt →
  os_path_isdir (w_fs staged.1) cwd (D +:+ "/" +:+ base +:+ ".warc.gz") = false →
  ∃ (dd : path) (m : fs),
    walk (w_fs staged.1) (start cwd (D +:+ "/" +:+ escape name))
      (split_slash D) = Ok dd ∧
    MoveFiles_process cwd staged.1
      = ({| w_fs := m; w_item := w_item staged.1 |}, Ok tt) ∧
    m !! (dd ++ [base +:+ ".warc.gz"]) = Some (File "") ∧
    os_path_exists m cwd (D +:+ "/" +:+ escape name) = false ∧
    (∀ p, dd ++ [escape name] `prefix_of` p → m !! p = None).
Proof.
  intros Hwf Hpre Hn Hd He1 He2 He3 staged base Hok Hdst. subst staged.
  destruct (stager_success warc_prefix cwd now w name D)
    as (m1 & m2 & d & _ & _ & Hd2 & Hdir & Hsub & Hwf2 & Hrun); [done..|].
  fold base in Hrun. rewrite Hrun in Hdst |- *. cbn [fst w_fs w_item] in *.
  set (dirname := D +:+ "/" +:+ escape name) in *.
  set (f := base +:+ ".warc.gz") in *.
  set (m3 := <[d ++ [f] := File ""]> m2) in *.
  set (it3 := <["warc_file_base" := base]> _) in *.
  assert ("/"%char ∉ chars base) as Hb by (by apply base_no_slash).
  assert (normal (escape name)) as He
    by (split_and!; [apply escape_no_slash|done..]).
  assert (m2 !! (d ++ [f]) = None) as Hnone.
  { apply subtree_empty with (p := d ++ [f]) in Hsub; [done|].
    apply below_app. by eexists [_]. }
  assert (walk m3 (start cwd dirname) (split_slash dirname) = Ok d) as Hd3.
  { eapply walk_mono; [|done]. intros q Hq. unfold m3.
    rewrite lookup_insert_ne; [done|]. intros <-. by rewrite Hnone in Hq. }
  assert (m3 !! d = Some Dir) as Hdir3.
  { unfold m3. rewrite lookup_insert_ne; [done|]. intros H.
    apply (f_equal length) in H. rewrite length_app in H. cbn in H. lia. }
  assert (dirname ≠ "") as Hne by apply app_slash_nonempty.
  destruct (finalizer_moves cwd {| w_fs := m3; w_item := it3 |} D base
              (escape name) "")
    as (dd & m & Hdd & _ & _ & Hmv & Hfile & Hgone & Hin & _).
  - cbn [w_item]. unfold it3. by lookup_ins.
  - cbn [w_item]. unfold it3. by lookup_ins.
  - cbn [w_item]. unfold it3. by lookup_ins.
  - done.
  - done.
  - cbn [w_fs]. fold dirname. unfold os_path_exists.
    rewrite (resolve_entry _ _ _ _ d);
      [|by apply warc_normal|by rewrite start_app_l].
    rewrite Hdir3. apply bool_decide_eq_false_2. intros [x Hx].
    unfold m3 in Hx. rewrite lookup_insert_ne in Hx.
    + apply subtree_empty with (p := d ++ [base +:+ ".warc"]) in Hsub;
        [by rewrite Hsub in Hx|].
      apply below_app. by eexists [_].
    + intros H. apply (inj (app d)) in H. injection H as H.
      by apply (inj (String.app base)) in H.
  - cbn [w_fs]. fold dirname. fold f. unfold read_file.
    rewrite (resolve_entry _ _ _ _ d);
      [|by apply gz_normal|by rewrite start_app_l].
    rewrite Hdir3. cbn [rbind]. unfold m3. by rewrite lookup_insert_eq.
  - done.
  - exists dd, m. by split_and!.
Qed.

Lemma stage_then_finalize_witness :
  let staged := PrepareDirectories_process "examplecity" [] example_time
                  stale_world in
  let base := "examplecity" +:+ "-" +:+ escape "smaug.fart.website:8080"
              +:+ "-" +:+ strftime "%Y%m%d-%H%M%S" example_time in
  ∃ (dd : path) (m : fs),
    walk (w_fs staged.1)
      (start [] ("/tmp/out" +:+ "/" +:+ escape "smaug.fart.website:8080"))
      (split_slash "/tmp/out") = Ok dd ∧
    MoveFiles_process [] staged.1
      = ({| w_fs := m; w_item := w_item staged.1 |}, Ok tt) ∧
    m !! (dd ++ [base +:+ ".warc.gz"]) = Some (File "") ∧
    os_path_exists m []
      ("/tmp/out" +:+ "/" +:+ escape "smaug.fart.website:8080") = false ∧
    (∀ p, dd ++ [escape "smaug.fart.website:8080"] `prefix_of` p →
       m !! p = None).
Proof.
  apply (stage_then_finalize "examplecity" [] example_time stale_world
           "smaug.fart.website:8080" "/tmp/out");
    first [ compute_done | vm_compute; reflexivity ].
Defined.

(** ** More on WgetArgs *)

(** X12. The argument builder reads [item_name] first: without it
    [KeyError] is raised and nothing is printed. A missing [item_dir] or
    [warc_file_base] is found only when the list is realized, after the
    bind-address banner, if any, has been printed. *)
Theorem WgetArgs_missing_key (g : globals) (it : item) (out : list string) :
  (it !! "item_name" = None →
   WgetArgs_realize g it out = (out, Raise (KeyError "item_name"))) ∧
  (is_Some (it !! "item_name") → it !! "item_dir" = None →
   WgetArgs_realize g it out = (out ++ banner g, Raise (KeyError "item_dir"))) ∧
  (is_Some (it !! "item_name") → is_Some (it !! "item_dir") →
   it !! "warc_file_base" = None →
   WgetArgs_realize g it out
     = (out ++ banner g, Raise (KeyError "warc_file_base"))).
Proof.
  split_and!.
  - intros Hn. unfold WgetArgs_realize, bind, lift, getitem. by rewrite Hn.
  - intros [name Hn] Hd.
    unfold WgetArgs_realize, bind, lift, ret, print, modify, getitem, banner.
    rewrite Hn.
    destruct (bind_address g) as [addr|].
    + rewrite format0_bind. cbn [app realize realize_arg rbind].
      unfold pct_format. cbn. unfold getitem. rewrite Hd. cbn.
      by rewrite <-!app_assoc.
    + cbn [app realize realize_arg rbind].
      unfold pct_format. cbn. unfold getitem. rewrite Hd. cbn.
      by rewrite app_nil_r.
  - intros [name Hn] [idir Hd] Hb.
    unfold WgetArgs_realize, bind, lift, ret, print, modify, getitem, banner.
    rewrite Hn.
    destruct (bind_address g) as [addr|].
    + rewrite format0_bind. cbn [app realize realize_arg rbind].
      unfold pct_format. cbn. unfold getitem. rewrite Hd, Hb. cbn.
      by rewrite <-!app_assoc.
    + cbn [app realize realize_arg rbind].
      unfold pct_format. cbn. unfold getitem. rewrite Hd, Hb. cbn.
      by rewrite app_nil_r.
Qed.

Lemma WgetArgs_missing_key_witness :
  WgetArgs_realize example_globals example_item []
    = ([] ++ banner example_globals, Raise (KeyError "item_dir")).
Proof.
  apply (proj1 (proj2 (WgetArgs_missing_key example_globals example_item [])));
    first [ reflexivity | by eexists ].
Defined.

(** ** When the stager succeeds *)







(** ** The empty item name *)

(** Where a walk without [.] and [..] ends does not depend on the file
    system. *)
Lemma walk_plain_result (cs : list string) : ∀ (m : fs) (cur p : path),
  Forall (λ c, c ≠ "." ∧ c ≠ "..") cs →
  walk m cur cs = Ok p → p = cur ++ filter (λ c, c ≠ "") cs.
Proof.
  induction cs as [|c cs IH]; intros m cur p Hcs.
  { intros [= <-]. by rewrite app_nil_r. }
  apply Forall_cons in Hcs as [[Hc1 Hc2] Hcs]. cbn [walk].
  destruct (m !! cur) as [[]|]; [|done..]. intros Hw.
  apply IH in Hw as ->; [|done]. unfold enter, is_dot.
  destruct (decide (c = "")) as [->|Hc0].
  - by rewrite filter_cons_False by (by intros ?).
  - rewrite !bool_decide_eq_false_2 by done. cbn [orb].
    rewrite decide_False by done. rewrite filter_cons_True by done.
    by rewrite <-app_assoc.
Qed.

Lemma escape_empty : escape "" = "".
Proof. reflexivity. Qed.

Lemma resolve_slash (m : fs) (cwd : path) (D : string) (dd d : path) :
  plain D →
  walk m (start cwd (D +:+ "/")) (split_slash D) = Ok dd →
  ∀ m', walk m' (start cwd (D +:+ "/")) (split_slash (D +:+ "/")) = Ok d →
        d = dd.
Proof.
  intros Hplain Hdd m' Hd.
  apply walk_plain_result in Hdd as ->; [|done].
  change (D +:+ "/") with (D +:+ "/" +:+ "") in Hd at 2.
  rewrite split_slash_app in Hd.
  apply walk_plain_result in Hd as ->.
  - cbn [split_slash]. rewrite filter_app.
    rewrite filter_cons_False by (by intros ?). by rewrite filter_nil, app_nil_r.
  - apply Forall_app. split; [done|]. cbn. by repeat constructor.
Qed.

(** X14. An empty [item_name] makes [data_dir] itself the working
    directory ([item_dir] is [data_dir/]): a stager that succeeds has
    emptied [data_dir] of everything but the new empty archive, and a
    finalizer that then succeeds has removed [data_dir] with everything
    below it, the archive included. *)
Theorem stager_empty_name (warc_prefix : string) (cwd : path)
    (now : struct_time) (w : world) (D : string) (dd : path) :
  fs_wf (w_fs w) →
  "/"%char ∉ chars warc_prefix →
  w_item w !! "item_name" = Some "" →
  w_item w !! "data_dir" = Some D →
  plain D →
  walk (w_fs w) (start cwd (D +:+ "/")) (split_slash D) = Ok dd →
  let staged := PrepareDirectories_process warc_prefix cwd now w in
  let base := warc_prefix +:+ "-" +:+ "" +:+ "-" +:+
              strftime "%Y%m%d-%H%M%S" now in
  staged.2 = Ok tt →
  w_item staged.1 !! "item_dir" = Some (D +:+ "/") ∧
  subtree (w_fs staged.1) dd = {[dd ++ [base +:+ ".warc.gz"] := File ""]} ∧
  ((MoveFiles_process cwd staged.1).2 = Ok tt →
   ∀ p, dd `prefix_of` p → w_fs (MoveFiles_process cwd staged.1).1 !! p = None).
Proof.
  intros Hwf Hpre Hn Hd Hplain Hdd staged base Hok. subst staged.
  destruct (stager_success warc_prefix cwd now w "" D)
    as (m1 & m2 & d & _ & _ & Hd2 & Hdir & Hsub & Hwf2 & Hrun); [done..|].
  rewrite escape_empty in *. fold base in Hrun. rewrite Hrun.
  cbn [fst snd w_fs w_item].
  change (D +:+ "/" +:+ "") with (D +:+ "/") in *.
  apply (resolve_slash _ _ _ _ _ Hplain Hdd) in Hd2 as ->.
  set (f := base +:+ ".warc.gz") in *.
  split_and!.
  - by lookup_ins.
  - apply subtree_single; [|done]. apply below_app. by eexists [_].
  - set (it3 := <["warc_file_base" := base]> _).
    set (m3 := <[dd ++ [f] := File ""]> m2).
    rewrite (finalizer_steps cwd _ (D +:+ "/") D base);
      [|cbn [w_item]; unfold it3; by lookup_ins..].
    cbn [w_fs w_item].
    destruct (os_path_exists _ _ _); [done|].
    destruct (os_rename _ _ _ _) as [m4 [[]|x]]; [|done].
    destruct (shutil_rmtree cwd (D +:+ "/") m4) as [m5 r5] eqn:Hrt.
    cbn [fst snd w_fs]. intros -> p Hp.
    unfold shutil_rmtree in Hrt.
    destruct (resolve m4 cwd (D +:+ "/")) as [d|] eqn:Hres; [|done].
    rewrite resolve_walk in Hres by (by destruct D).
    apply (resolve_slash _ _ _ _ _ Hplain Hdd) in Hres as ->.
    destruct (m4 !! dd) as [[]|]; [|done..].
    destruct (rmdir_errno _ _); [done|]. injection Hrt as <-.
    destruct (decide (p = dd)) as [->|Hne]; [by rewrite lookup_delete_eq|].
    rewrite lookup_delete_ne by done. apply map_lookup_filter_None_2.
    right. intros x _ Hx. by apply Hx.
Qed.

Lemma stager_empty_name_witness :
  let staged := PrepareDirectories_process "examplecity" [] example_time
                  nameless_world in
  let base := "examplecity" +:+ "-" +:+ "" +:+ "-" +:+
              strftime "%Y%m%d-%H%M%S" example_time in
  w_item staged.1 !! "item_dir" = Some ("/tmp/out" +:+ "/") ∧
  subtree (w_fs staged.1) ["tmp"; "out"]
    = {[["tmp"; "out"] ++ [base +:+ ".warc.gz"] := File ""]} ∧
  (∀ p, ["tmp"; "out"] `prefix_of` p →
     w_fs (MoveFiles_process [] staged.1).1 !! p = None).
Proof.
  destruct (stager_empty_name "examplecity" [] example_time nameless_world
              "/tmp/out" ["tmp"; "out"]) as (Hdir & Hsub & Hgone);
    [first [ compute_done | vm_compute; reflexivity ]..|].
  split_and!; [exact Hdir|exact Hsub|].
  apply Hgone. vm_compute. reflexivity.
Defined.

(** ** Loading the module *)

Lemma split_slash_join (cs : list string) :
  Forall normal cs → cs ≠ [] → split_slash (join "/" cs) = cs.
Proof.
  induction cs as [|c cs IH]; [done|]. intros [Hc Hcs]%Forall_cons _.
  destruct cs as [|c' cs]; [by apply split_slash_plain, Hc|].
  change (join "/" (c :: c' :: cs)) with (c +:+ "/" +:+ join "/" (c' :: cs)).
  rewrite split_slash_app, IH by done.
  by rewrite split_slash_plain by apply Hc.
Qed.

Lemma normal_last (c : string) :
  normal c → ∃ x, last (chars c) = Some x ∧ x ≠ "/"%char.
Proof.
  intros (Hs & Hne & _).
  destruct (last (chars c)) as [x|] eqn:Hl.
  - exists x. split; [done|]. intros ->. by apply last_Some_elem_of in Hl.
  - apply last_None in Hl. by destruct c.
Qed.

Lemma join_last (cs : list string) :
  Forall normal cs → cs ≠ [] →
  ∃ x, last (chars (join "/" cs)) = Some x ∧ x ≠ "/"%char.
Proof.
  induction cs as [|c cs IH]; [done|]. intros [Hc Hcs]%Forall_cons _.
  destruct cs as [|c' cs]; [by apply normal_last|].
  destruct IH as (x & Hx & Hne); [done..|]. exists x. split; [|done].
  change (join "/" (c :: c' :: cs)) with (c +:+ "/" +:+ join "/" (c' :: cs)).
  rewrite !chars_app, !last_app. by rewrite Hx.
Qed.

(** Walking down to a directory that is there. *)
Lemma walk_down (cs : list string) : ∀ (m : fs) (cur : path),
  fs_wf m → Forall normal cs → m !! (cur ++ cs) = Some Dir →
  walk m cur cs = Ok (cur ++ cs).
Proof.
  induction cs as [|c cs IH]; intros m cur Hwf Hcs Hdir.
  { by rewrite app_nil_r. }
  apply Forall_cons in Hcs as [Hc Hcs]. cbn [walk].
  rewrite (wf_above m cur (c :: cs)) by (by rewrite ?Hdir).
  rewrite normal_enter by done.
  rewrite IH; [by rewrite <-app_assoc|done..|by rewrite <-app_assoc].
Qed.

Lemma normal_relative (name : string) : normal name → startswith "/" name = false.
Proof.
  intros (Hs & Hne & _). destruct name as [|a name]; [done|].
  cbn [startswith]. destruct (Ascii.eqb_spec "/" a) as [<-|]; [|done].
  destruct Hs. by left.
Qed.

(** [os.path.join] puts one slash between a directory and a relative
    name. *)
Lemma os_path_join_rel (a b : string) (x : ascii) :
  last (chars a) = Some x → x ≠ "/"%char → startswith "/" b = false →
  os_path_join a b = a +:+ "/" +:+ b.
Proof.
  intros Hl Hx Hb. unfold os_path_join. rewrite Hb.
  destruct a as [|a0 a]; [done|]. unfold chars in Hl. rewrite Hl.
  by rewrite decide_False by congruence.
Qed.

Lemma os_path_join_root (b : string) :
  startswith "/" b = false → os_path_join "/" b = "" +:+ "/" +:+ b.
Proof. intros Hb. unfold os_path_join. by rewrite Hb. Qed.

(** [os.path.join(os.getcwd(), name)] is the entry [name] of the working
    directory, whatever directory the path is resolved from. *)
Lemma resolve_getcwd_join (m : fs) (cwd from : path) (name : string) :
  fs_wf m → Forall normal cwd → m !! cwd = Some Dir → normal name →
  resolve m from (os_path_join (os_getcwd cwd) name) = Ok (cwd ++ [name]).
Proof.
  intros Hwf Hcwd Hdir Hname.
  pose proof (normal_relative _ Hname) as Hrel.
  pose proof (proj1 Hwf) as Hroot.
  destruct cwd as [|c cwd].
  - cbn [os_getcwd]. rewrite os_path_join_root by done.
    rewrite (resolve_entry m from "" name []); [by rewrite Hdir|done|].
    change (walk m [] [""] = Ok []). cbn [walk]. by rewrite Hroot.
  - destruct (join_last (c :: cwd)) as (x & Hx & Hne); [done..|].
    unfold os_getcwd.
    set (j := join "/" (c :: cwd)) in *.
    rewrite (os_path_join_rel _ _ x); [|by rewrite chars_app, last_app, Hx|done..].
    rewrite (resolve_entry m from ("/" +:+ j) name (c :: cwd));
      [by rewrite Hdir|done|].
    change (walk m [] ("" :: split_slash j) = Ok (c :: cwd)).
    cbn [walk]. rewrite Hroot. change (enter [] "") with (@nil string).
    unfold j. rewrite split_slash_join by done.
    by apply (walk_down (c :: cwd) m []).
Qed.

(** X15. The two digests the module computes when it is loaded. For a
    working directory that exists, and within the limits of the system
    on path strings, [os.path.join(os.getcwd(), name)] names the entry
    [name] of the working directory, so [pipeline.py] and
    [examplecity.py] are read from the directory the process was started
    in; the two assignments succeed exactly when both are regular files
    there, and the digests are then those of their contents; a missing
    file raises [ENOENT] and a directory in its place [EISDIR],
    [pipeline.py] being read first. This is about these assignments
    alone: what the module does before them (the version check, the
    search for the executable) and after them is not part of it. *)
Theorem source_digests_read (sha1 : string → string) (m : fs) (cwd : path) :
  fs_wf m → Forall normal cwd → m !! cwd = Some Dir →
  representable (os_path_join (os_getcwd cwd) "pipeline.py") →
  representable (os_path_join (os_getcwd cwd) "examplecity.py") →
  source_digests sha1 m cwd =
    match m !! (cwd ++ ["pipeline.py"]), m !! (cwd ++ ["examplecity.py"]) with
    | Some (File c1), Some (File c2) => Ok (sha1 c1, sha1 c2)
    | Some (File _), Some Dir | Some Dir, _ => Raise (OSError EISDIR)
    | Some (File _), None | None, _ => Raise (OSError ENOENT)
    end.
Proof.
  intros Hwf Hcwd Hdir _ _. unfold source_digests, get_hash, read_file.
  rewrite !resolve_getcwd_join by (done || compute_done).
  cbn [rbind].
  destruct (m !! (cwd ++ ["pipeline.py"])) as [[|c1]|]; [done| |done].
  cbn [rbind].
  by destruct (m !! (cwd ++ ["examplecity.py"])) as [[|c2]|].
Qed.

Lemma source_digests_read_witness :
  source_digests String.rev example_src_fs ["home"; "warrior"]
    = Ok (String.rev "pipeline source", String.rev "wpull hooks").
Proof.
  rewrite (source_digests_read String.rev example_src_fs ["home"; "warrior"]);
    [reflexivity | compute_done..].
Defined.

(** ** What the argument builder prints *)

(** X16. Whatever the item and whatever the result, the argument builder
    prints the three banner lines when a bind address is set and the item
    has a name, and nothing otherwise. *)
Theorem WgetArgs_output (g : globals) (it : item) (out : list string) :
  (WgetArgs_realize g it out).1
    = match it !! "item_name" with
      | Some _ => out ++ banner g
      | None => out
      end.
Proof.
  unfold WgetArgs_realize, bind, lift, ret, print, modify, getitem, banner.
  destruct (it !! "item_name") as [name|]; [|done].
  destruct (bind_address g) as [addr|].
  - rewrite format0_bind. cbn [fst snd]. by rewrite <-!app_assoc.
  - cbn [fst snd]. by rewrite app_nil_r.
Qed.
